(** * Verizip: hash-verified zip creation

    A shallow embedding of [verizip.py] and the properties its
    specification states about it.

    Python values are modelled as follows.
    - [str] is [string]; [bytes] read from files is [list byte].
    - a [dict] from digest to list of relative paths is a
      [gmap string (list string)]: equality of two such maps is Python's
      [==] on dicts (same keys, equal values), and equality of the values is
      Python's [==] on lists (same elements in the same order).
    - an exception is a value of [exn]; a function that may raise returns a
      [result].
    - [os.path] is an interface ([Os]) with the POSIX implementation
      ([posixpath]) written out; [hashlib] is an interface ([Hashlib]).
    - the file system is a tree of [node]s read through paths; a zip
      archive is the list of its entries in stored order.

    The messages of [printer], with [bytes_filesize_to_readable_str] and
    the log of excluded folders that feed them, and the parsing of the
    command line are left out: [main] starts from the captured [Args]. *)

From Stdlib Require Import ZArith Lia Ascii Strings.Byte Decimal DecimalString Permutation.
From Stdlib Require Import DecimalNat.
From stdpp Require Import base option list strings gmap fin_maps sorting.

(** ** Exceptions and results *)

Inductive exn :=
| IOError (msg : string)
| OSError (filename : string)
| ValueError (msg : string)
| KeyError (key : string)
| IndexError.

Inductive result (A : Type) :=
| Ok (a : A)
| Raise (e : exn).
Arguments Ok {A} a.
Arguments Raise {A} e.

(** Sequencing: a raised exception propagates, as an uncaught exception
    does through Python statements. Written [x ← r; k]. *)
#[global] Instance result_bind : MBind result := λ A B k r,
  match r with
  | Ok a => k a
  | Raise e => Raise e
  end.

(** ** Python string primitives *)

Definition bytes := list Byte.byte.

(** The character of the Windows path separator. *)
Definition backslash : ascii := ascii_of_nat 92.

(** [s[1:]] *)
Definition drop_first (s : string) : string :=
  match s with
  | EmptyString => EmptyString
  | String _ t => t
  end.

(** [s.startswith(pre)] *)
Definition startswith (s pre : string) : bool := String.prefix pre s.

(** [s.endswith(c)] for a one-character [c]. *)
Fixpoint endswith_char (s : string) (c : ascii) : bool :=
  match s with
  | EmptyString => false
  | String a EmptyString => Ascii.eqb a c
  | String _ t => endswith_char t c
  end.

(** [c in s] for a one-character [c]. *)
Fixpoint contains_char (c : ascii) (s : string) : bool :=
  match s with
  | EmptyString => false
  | String a t => Ascii.eqb a c || contains_char c t
  end.

(** [s.replace(old, new)] for a one-character [old]. *)
Fixpoint replace_char (old : ascii) (new : string) (s : string) : string :=
  match s with
  | EmptyString => EmptyString
  | String a t =>
      if Ascii.eqb a old then new +:+ replace_char old new t
      else String a (replace_char old new t)
  end.

(** [sep.join(l)] *)
Fixpoint str_join (sep : string) (l : list string) : string :=
  match l with
  | [] => EmptyString
  | [x] => x
  | x :: l' => x +:+ sep +:+ str_join sep l'
  end.

(** The scan of [s.split(sep)] for a non-empty [sep]: the result is the
    component that starts here followed by the later ones; [skip] counts the
    characters of a separator occurrence still to be passed over. *)
Fixpoint split_go (sep : string) (skip : nat) (s : string) : list string :=
  match s with
  | EmptyString => [EmptyString]
  | String a t =>
      match skip with
      | S k => split_go sep k t
      | O =>
          if String.prefix sep s
          then EmptyString :: split_go sep (String.length sep - 1) t
          else match split_go sep 0 t with
               | w :: ws => String a w :: ws
               | [] => [String a EmptyString]
               end
      end
  end.

(** [s.split(sep)]: an empty separator raises [ValueError]. *)
Definition str_split (s sep : string) : result (list string) :=
  if String.eqb sep "" then Raise (ValueError "empty separator")
  else Ok (split_go sep 0 s).

(** [str(n)] / ["{}".format(n)] for a non-negative [int]. *)
Definition str_of_nat (n : nat) : string :=
  NilEmpty.string_of_uint (Nat.to_uint n).

(** Python's [sorted] on a list of [str]: ascending by code points. *)
Definition str_le (a b : string) : Prop := String.leb a b = true.
#[global] Instance str_le_dec : RelDecision str_le.
Proof. intros a b. unfold str_le. apply _. Defined.
Definition sorted (l : list string) : list string := merge_sort str_le l.

(** ** [get_common_root_directory] *)

(** [all(second_value_onwards == iterable[0] for ... in iterable[1:])];
    on an empty tuple the generator is empty and [iterable[0]] is never
    evaluated. *)
Definition check_all_iterable_values_equal (iterable : list string) : bool :=
  match iterable with
  | [] => true
  | first :: rest => forallb (fun v => String.eqb v first) rest
  end.

(** [zip] applied to the unpacked list [ls]: the tuples of the i-th items,
    as many as the shortest list has; no tuple at all when [ls] is empty. *)
Fixpoint zip_star {A} (ls : list (list A)) : list (list A) :=
  match ls with
  | [] => []
  | [l] => map (fun x => [x]) l
  | l :: ls' => zip_with cons l (zip_star ls')
  end.

(** [itertools.takewhile] *)
Fixpoint takewhile {A} (f : A -> bool) (l : list A) : list A :=
  match l with
  | [] => []
  | x :: l' => if f x then x :: takewhile f l' else []
  end.

(** [[p.split(sep) for p in paths]] *)
Fixpoint split_all (paths : list string) (sep : string) : result (list (list string)) :=
  match paths with
  | [] => Ok []
  | p :: paths' =>
      c ← str_split p sep;
      cs ← split_all paths' sep;
      Ok (c :: cs)
  end.

(** The components kept by the [takewhile] scan. Every tuple of [zip_star]
    has one item per path, so [x[0]] exists whenever a tuple does. *)
Definition common_components (levels : list (list string)) : list string :=
  map (fun x => hd EmptyString x)
      (takewhile check_all_iterable_values_equal (zip_star levels)).

Definition get_common_root_directory (paths : list string) (sep : string)
  : result (option string) :=
  levels ← split_all paths sep;
  let common_directory := str_join sep (common_components levels) in
  if String.eqb common_directory "" then Ok None else Ok (Some common_directory).

(** ** The host: [platform], [os.environ] and [os.path] *)

(** The file system is a tree. A regular file carries its bytes and whether
    it can be opened for reading; [Special] stands for pipes, sockets and
    the like; a directory carries whether it can be listed and its entries
    in [os.listdir] order. There are no symbolic links. *)
#[warnings="-register-all"] Inductive node :=
| File (readable : bool) (content : bytes)
| Special
| Dir (listable : bool) (entries : list (string * node)).

(** What the script asks of its host. [path_lookup] is the node an
    (absolute or relative) path names in a tree, the way [os.stat] resolves
    it; the other fields are the functions of [os.path] the script calls. *)
Class Os := {
  platform_system : string;
  environ_xpc_service_name : option string;
  os_sep : ascii;
  os_altsep : option ascii;
  path_join : string -> string -> string;
  path_basename : string -> string;
  path_dirname : string -> string;
  path_splitext : string -> string * string;
  path_splitdrive : string -> string * string;
  path_normpath : string -> string;
  path_abspath : string -> string;
  path_relpath : string -> string -> result string;
  path_lookup : node -> string -> option node;
}.

(** *** [posixpath] *)

Module posixpath.

Definition sep : ascii := "/"%char.

Definition isabs (s : string) : bool := startswith s "/".

(** [join(a, b)] *)
Definition join (a b : string) : string :=
  if startswith b "/" then b
  else if String.eqb a "" || endswith_char a sep then a +:+ b
  else a +:+ "/" +:+ b.

(** [join(a, *p)] *)
Definition join_many (a : string) (p : list string) : string :=
  fold_left join p a.

(** [(p[:i], p[i:])] for [i = p.rfind("/") + 1]: the part up to and
    including the last slash, and the part after it. *)
Fixpoint rsplit_sep (p : string) : string * string :=
  match p with
  | EmptyString => (EmptyString, EmptyString)
  | String a t =>
      let '(h, tl) := rsplit_sep t in
      match h with
      | EmptyString =>
          if Ascii.eqb a sep then (String a EmptyString, tl)
          else (EmptyString, String a tl)
      | _ => (String a h, tl)
      end
  end.

(** [s == "/" * len(s)] *)
Fixpoint all_sep (s : string) : bool :=
  match s with
  | EmptyString => true
  | String a t => Ascii.eqb a sep && all_sep t
  end.

(** [s.rstrip("/")] *)
Fixpoint rstrip_sep (s : string) : string :=
  match s with
  | EmptyString => EmptyString
  | String a t =>
      match rstrip_sep t with
      | EmptyString => if Ascii.eqb a sep then EmptyString else String a EmptyString
      | r => String a r
      end
  end.

Definition basename (p : string) : string := snd (rsplit_sep p).

Definition dirname (p : string) : string :=
  let head := fst (rsplit_sep p) in
  if negb (String.eqb head "") && negb (all_sep head) then rstrip_sep head
  else head.

(** [(s[:j], s[j:])] for [j = s.rfind(".")], and [(s, "")] when [s] has no
    dot. *)
Fixpoint rsplit_dot (s : string) : string * string :=
  match s with
  | EmptyString => (EmptyString, EmptyString)
  | String a t =>
      let '(st, ex) := rsplit_dot t in
      match ex with
      | EmptyString =>
          if Ascii.eqb a "."%char then (EmptyString, String a t)
          else (String a st, EmptyString)
      | _ => (String a st, ex)
      end
  end.

Fixpoint all_dots (s : string) : bool :=
  match s with
  | EmptyString => true
  | String a t => Ascii.eqb a "."%char && all_dots t
  end.

(** [genericpath._splitext(p, "/", None, ".")]: the extension starts at the
    last dot of the last component, unless only dots precede it there. *)
Definition splitext (p : string) : string * string :=
  let '(head, name) := rsplit_sep p in
  let '(stem, ext) := rsplit_dot name in
  if negb (String.eqb ext "") && negb (all_dots stem) then (head +:+ stem, ext)
  else (p, EmptyString).

Definition splitdrive (p : string) : string * string := (EmptyString, p).

(** One round of the loop of [normpath] over the components. *)
Definition normpath_step (initial_slashes : nat) (new_comps : list string)
    (comp : string) : list string :=
  if String.eqb comp "" || String.eqb comp "." then new_comps
  else if negb (String.eqb comp "..")
          || (Nat.eqb initial_slashes 0 && bool_decide (new_comps = []))
          || (negb (bool_decide (new_comps = []))
              && String.eqb (List.last new_comps EmptyString) "..")
  then new_comps ++ [comp]
  else removelast new_comps.

Definition normpath (path : string) : string :=
  if String.eqb path "" then "."
  else
    let initial_slashes :=
      if startswith path "/"
      then if startswith path "//" && negb (startswith path "///") then 2 else 1
      else 0 in
    let comps := split_go "/" 0 path in
    let new_comps := fold_left (normpath_step initial_slashes) comps [] in
    let path := str_join "/" new_comps in
    let path := String.concat "" (replicate initial_slashes "/") +:+ path in
    if String.eqb path "" then "." else path.

Definition abspath (cwd path : string) : string :=
  normpath (if isabs path then path else join cwd path).

(** [len(commonprefix([l1, l2]))] on two lists of components: the number
    of leading positions at which they agree. *)
Fixpoint common_prefix_len (l1 l2 : list string) : nat :=
  match l1, l2 with
  | x :: l1', y :: l2' => if String.eqb x y then S (common_prefix_len l1' l2') else 0
  | _, _ => 0
  end.

(** [[x for x in abspath(p).split("/") if x]] *)
Definition parts (cwd p : string) : list string :=
  filter (λ x, x ≠ EmptyString) (split_go "/" 0 (abspath cwd p)).

Definition relpath (cwd path start : string) : result string :=
  if String.eqb path "" then Raise (ValueError "no path specified")
  else
    let start_list := parts cwd start in
    let path_list := parts cwd path in
    let i := common_prefix_len start_list path_list in
    let rel_list := replicate (length start_list - i) ".." ++ drop i path_list in
    match rel_list with
    | [] => Ok "."
    | a :: p => Ok (join_many a p)
    end.

(** The entry of a directory listing with a given name. *)
Fixpoint entry (name : string) (entries : list (string * node)) : option node :=
  match entries with
  | [] => None
  | (n, child) :: rest => if String.eqb n name then Some child else entry name rest
  end.

(** Walks down the tree along the names of a path. *)
Fixpoint descend (n : node) (names : list string) : option node :=
  match names with
  | [] => Some n
  | name :: rest =>
      match n with
      | Dir _ entries =>
          match entry name entries with
          | Some child => descend child rest
          | None => None
          end
      | _ => None
      end
  end.

(** The tree is the directory ["/"]; a relative path starts at [cwd]; the
    empty path names nothing. *)
Definition lookup (cwd : string) (fs : node) (p : string) : option node :=
  if String.eqb p "" then None else descend fs (parts cwd p).

End posixpath.

(** A POSIX host: [system] is what [platform.system()] returns there
    ("Linux", "Darwin", ...). *)
Definition posix_host (system : string) (xpc : option string) (cwd : string) : Os := {|
  platform_system := system;
  environ_xpc_service_name := xpc;
  os_sep := posixpath.sep;
  os_altsep := None;
  path_join := posixpath.join;
  path_basename := posixpath.basename;
  path_dirname := posixpath.dirname;
  path_splitext := posixpath.splitext;
  path_splitdrive := posixpath.splitdrive;
  path_normpath := posixpath.normpath;
  path_abspath := posixpath.abspath cwd;
  path_relpath := posixpath.relpath cwd;
  path_lookup := posixpath.lookup cwd;
|}.

Definition linux : Os := posix_host "Linux" None "/".

(** ** [hashlib] *)

(** A hash object: [hashlib_new algorithm] is [getattr(hashlib, algorithm)()]. *)
Class Hashlib := {
  hash_object : Type;
  hashlib_new : string -> hash_object;
  update : hash_object -> bytes -> hash_object;
  hexdigest : hash_object -> string;
}.

(** What the documentation of [hashlib] promises of [update]: repeated calls
    are equivalent to a single call with the concatenation of the
    arguments. *)
Class HashlibStreaming (H : Hashlib) : Prop := {
  update_nil : forall h, update h [] = h;
  update_app : forall h a b, update (update h a) b = update h (a ++ b);
}.

(** ** [zipfile] *)

Record zip_entry := ZipEntry { ze_name : string; ze_data : bytes }.

(** An archive is its entries in stored order. *)
Definition archive := list zip_entry.

(** [zip_handler.namelist()] *)
Definition namelist (a : archive) : list string := map ze_name a.

(** [NameToInfo]: when a name was written more than once the last entry
    answers for it. *)
Fixpoint getinfo (a : archive) (name : string) : option zip_entry :=
  match a with
  | [] => None
  | e :: a' =>
      match getinfo a' name with
      | Some e' => Some e'
      | None => if String.eqb (ze_name e) name then Some e else None
      end
  end.

(** [zip_handler.open(name, "r")]: the bytes the reader will deliver. *)
Definition zip_open (a : archive) (name : string) : result bytes :=
  match getinfo a name with
  | Some e => Ok (ze_data e)
  | None => Raise (KeyError name)
  end.

(** [filename[0:filename.find(chr(0))]] when there is a null byte. *)
Fixpoint truncate_at_nul (s : string) : string :=
  match s with
  | EmptyString => EmptyString
  | String a t => if Ascii.eqb a Ascii.zero then EmptyString else String a (truncate_at_nul t)
  end.

Section Host.
Context `{Os} `{Hashlib}.

(** *** Reading the file system *)

Definition isfile (fs : node) (p : string) : bool :=
  match path_lookup fs p with
  | Some (File _ _) => true
  | _ => false
  end.

Definition isdir (fs : node) (p : string) : bool :=
  match path_lookup fs p with
  | Some (Dir _ _) => true
  | _ => false
  end.

(** [open(p, "rb")] followed by reading: the bytes of a readable regular
    file; anything else raises [IOError]. *)
Definition open_rb (fs : node) (p : string) : result bytes :=
  match path_lookup fs p with
  | Some (File true content) => Ok content
  | _ => Raise (IOError p)
  end.

(** [os.path.getsize] of a directory entry that is not a directory. *)
Definition getsize (n : node) : nat :=
  match n with
  | File _ content => length content
  | _ => 0
  end.

Definition is_dir_node (n : node) : bool :=
  match n with
  | Dir _ _ => true
  | _ => false
  end.

(** *** Writing an archive entry *)

(** [while arcname[0] in (os.sep, os.altsep): arcname = arcname[1:]];
    indexing the empty string raises [IndexError]. *)
Fixpoint strip_leading_seps (arcname : string) : result string :=
  match arcname with
  | EmptyString => Raise IndexError
  | String a t =>
      if Ascii.eqb a os_sep || bool_decide (Some a = os_altsep)
      then strip_leading_seps t
      else Ok arcname
  end.

(** The name [ZipFile.write] stores for [arcname]: the drive is dropped,
    the path normalised, leading separators removed; [ZipInfo] then cuts
    at a null byte and turns [os.sep] into a forward slash. *)
Definition stored_name (arcname : string) (isdir : bool) : result string :=
  let arcname := path_normpath (snd (path_splitdrive arcname)) in
  arcname ← strip_leading_seps arcname;
  let arcname := if isdir then arcname +:+ "/" else arcname in
  let filename := truncate_at_nul arcname in
  Ok (if negb (Ascii.eqb os_sep "/"%char) && contains_char os_sep filename
      then replace_char os_sep "/" filename
      else filename).

(** [zip_handler.write(filename, arcname=arcname)]: [os.stat] fails on a
    missing file; a directory is stored as an empty entry whose name ends
    with a slash; otherwise the file is opened and read. *)
Definition zip_write (fs : node) (zip_handler : archive) (filename arcname : string)
  : result archive :=
  match path_lookup fs filename with
  | None => Raise (OSError filename)
  | Some (Dir _ _) =>
      name ← stored_name arcname true;
      Ok (zip_handler ++ [ZipEntry name []])
  | Some _ =>
      name ← stored_name arcname false;
      content ← open_rb fs filename;
      Ok (zip_handler ++ [ZipEntry name content])
  end.

(** *** [get_missing_sources] *)

Definition get_missing_sources (fs : node) (source_paths : list string)
    (files_only : bool) : list string :=
  List.filter
    (fun source_path =>
       (negb (isdir fs source_path) || files_only) && negb (isfile fs source_path))
    source_paths.

(** *** [get_list_as_str] *)

Definition get_list_as_str (list_to_convert : list string) : string :=
  str_join ", " (map (fun list_item => "'" +:+ list_item +:+ "'") list_to_convert).

(** *** [check_running_from_automator] *)

Definition check_running_from_automator : bool :=
  String.eqb platform_system "Darwin"
  && bool_decide (environ_xpc_service_name = Some "com.apple.automator.xpc.runner").

Definition is_windows : bool := String.eqb platform_system "Windows".

(** *** [add_files_to_zip] *)

(** The [arcname] handed to [zip_handler.write] for one file. *)
Definition arcname_of (file_path : string) (common_root_directory : option string)
    (put_all_files_in_shared_root_dir : bool) : result string :=
  rel_path ←
    match common_root_directory with
    | Some root => path_relpath file_path root
    | None =>
        Ok (if is_windows then replace_char ":" "" file_path else file_path)
    end;
  match common_root_directory with
  | Some root =>
      if put_all_files_in_shared_root_dir
      then Ok (path_join (path_basename root) rel_path)
      else Ok rel_path
  | None => Ok rel_path
  end.

Fixpoint add_files_to_zip (fs : node) (file_list : list string)
    (common_root_directory : option string) (zip_handler : archive)
    (put_all_files_in_shared_root_dir : bool) : result archive :=
  match file_list with
  | [] => Ok zip_handler
  | file_path :: file_list' =>
      arcname ← arcname_of file_path common_root_directory
                  put_all_files_in_shared_root_dir;
      zip_handler ← zip_write fs zip_handler file_path arcname;
      add_files_to_zip fs file_list' common_root_directory zip_handler
        put_all_files_in_shared_root_dir
  end.

(** *** [get_file_paths_and_size] *)

Definition EXCLUDE_FOLDERS : list string :=
  ["$RECYCLE.BIN"; "System Volume Information"].

(** [f[0] == "."] *)
Definition first_is_dot (f : string) : bool :=
  match f with
  | String a _ => Ascii.eqb a "."%char
  | EmptyString => false
  end.

Definition in_exclude_folders (d : string) : bool :=
  existsb (String.eqb d) EXCLUDE_FOLDERS.

(** Whether a name of [filenames] survives the filters. *)
Definition keep_filename (ignore_dotfiles : bool) (f : string) : bool :=
  if ignore_dotfiles then negb (first_is_dot f) else true.

(** Whether a name of [dirs] survives the filters, so that the walk
    descends into it. *)
Definition keep_dir (ignore_dotfiles ignore_windows_volume_folders : bool)
    (d : string) : bool :=
  (if ignore_dotfiles then negb (first_is_dot d) else true)
  && (if ignore_windows_volume_folders then negb (in_exclude_folders d) else true).

(** The recursion of [os.walk] into the sub-directories that are left in
    [dirs], in listing order; [descend name child] walks one of them. *)
Fixpoint walk_dirs (descend : string -> node -> result (list string * nat))
    (keep : string -> bool) (entries : list (string * node))
  : result (list string * nat) :=
  match entries with
  | [] => Ok ([], 0)
  | (name, child) :: entries' =>
      if is_dir_node child && keep name
      then
        '(f1, s1) ← descend name child;
        '(f2, s2) ← walk_dirs descend keep entries';
        Ok (f1 ++ f2, s1 + s2)
      else walk_dirs descend keep entries'
  end.

(** The loop over [os.walk(root)] for the directory [n] found at [root]:
    the files appended and the bytes added. A directory that cannot be
    listed reaches [walk_error], which raises. With [ignore_dotfiles] an
    empty entry name would make [f[0]] raise; a directory listing has
    none. *)
Fixpoint walk (ignore_dotfiles ignore_windows_volume_folders : bool)
    (root : string) (n : node) {struct n} : result (list string * nat) :=
  match n with
  | Dir true entries =>
      if ignore_dotfiles && existsb (fun e => String.eqb (fst e) "") entries
      then Raise IndexError
      else
        let nondirs := List.filter (fun e => negb (is_dir_node (snd e))) entries in
        let kept :=
          List.filter (fun e => keep_filename ignore_dotfiles (fst e)) nondirs in
        let files := map (fun e => path_join root (fst e)) kept in
        let size := list_sum (map (fun e => getsize (snd e)) kept) in
        '(sub_files, sub_size) ←
          walk_dirs
            (fun name child =>
               walk ignore_dotfiles ignore_windows_volume_folders
                 (path_join root name) child)
            (keep_dir ignore_dotfiles ignore_windows_volume_folders) entries;
        Ok (files ++ sub_files, size + sub_size)
  | _ => Raise (OSError root)
  end.

Fixpoint walk_paths (fs : node) (ignore_dotfiles ignore_windows_volume_folders : bool)
    (paths : list string) : result (list string * nat) :=
  match paths with
  | [] => Ok ([], 0)
  | path :: paths' =>
      '(f1, s1) ←
        match path_lookup fs path with
        | Some n => walk ignore_dotfiles ignore_windows_volume_folders path n
        | None => Raise (OSError path)
        end;
      '(f2, s2) ← walk_paths fs ignore_dotfiles ignore_windows_volume_folders paths';
      Ok (f1 ++ f2, s1 + s2)
  end.

Definition get_file_paths_and_size (fs : node) (paths : list string)
    (ignore_dotfiles ignore_windows_volume_folders : bool)
  : result (list string * nat) :=
  '(files, size) ← walk_paths fs ignore_dotfiles ignore_windows_volume_folders
                     (sorted paths);
  Ok (sorted files, size).

(** *** [hash_file_at_path] and [hash_file_in_zip] *)

(** The [while True] loop of [hash_file_at_path]: [file_handler] is what
    is left to read, [read(block_size)] takes the next block. Every round
    but the last consumes at least one byte, so [fuel] beyond the length of
    the content is never used up. *)
Fixpoint hash_file_at_path_loop (block_size fuel : nat) (hasher : hash_object)
    (file_handler : bytes) : hash_object :=
  match fuel with
  | 0 => hasher
  | S fuel' =>
      let data := take block_size file_handler in
      match data with
      | [] => hasher
      | _ => hash_file_at_path_loop block_size fuel' (update hasher data)
               (drop block_size file_handler)
      end
  end.

Definition hash_file_at_path (fs : node) (file_path : string) (algorithm : string)
  : result string :=
  let block_size := 64 * 1024 in
  let hasher := hashlib_new algorithm in
  file_handler ← open_rb fs file_path;
  Ok (hexdigest
        (hash_file_at_path_loop block_size (S (length file_handler)) hasher file_handler)).

(** The same loop, written a second time in [hash_file_in_zip]. *)
Fixpoint hash_file_in_zip_loop (block_size fuel : nat) (hasher : hash_object)
    (file_handler : bytes) : hash_object :=
  match fuel with
  | 0 => hasher
  | S fuel' =>
      let data := take block_size file_handler in
      match data with
      | [] => hasher
      | _ => hash_file_in_zip_loop block_size fuel' (update hasher data)
               (drop block_size file_handler)
      end
  end.

Definition hash_file_in_zip (zip_handler : archive) (file_path_in_zip : string)
    (algorithm : string) : result string :=
  let block_size := 64 * 1024 in
  let hasher := hashlib_new algorithm in
  file_handler ← zip_open zip_handler file_path_in_zip;
  Ok (hexdigest
        (hash_file_in_zip_loop block_size (S (length file_handler)) hasher file_handler)).

(** *** [get_hash_dict] *)

Definition not_regular_file_message (file_path : string) : string :=
  "'" +:+ file_path +:+
  "' has either been deleted or is not a regular file (may be a pipe/socket) - zip creation aborted".

(** The relative name appended to the list of a digest. *)
Definition rel_path_of (file_path : string) (root_dir : option string)
    (dir_flag : bool) : result string :=
  rel_path ←
    match root_dir with
    | Some root => path_relpath file_path root
    | None =>
        Ok (if negb is_windows then drop_first file_path
            else replace_char ":" "" file_path)
    end;
  let rel_path :=
    match root_dir with
    | Some root => if dir_flag then path_join (path_basename root) rel_path else rel_path
    | None => rel_path
    end in
  Ok (if is_windows then replace_char backslash "/" rel_path else rel_path).

(** The body of the [for] loop of [get_hash_dict], from the dict built so
    far. *)
Fixpoint get_hash_dict_from (fs : node) (file_list : list string)
    (root_dir : option string) (dir_flag : bool)
    (hash_dict : gmap string (list string)) : result (gmap string (list string)) :=
  match file_list with
  | [] => Ok hash_dict
  | file_path :: file_list' =>
      if negb (isfile fs file_path)
      then Raise (IOError (not_regular_file_message file_path))
      else
        hash_value ← hash_file_at_path fs file_path "sha1";
        let hash_dict :=
          match hash_dict !! hash_value with
          | None => <[hash_value := []]> hash_dict
          | Some _ => hash_dict
          end in
        rel_path ← rel_path_of file_path root_dir dir_flag;
        get_hash_dict_from fs file_list' root_dir dir_flag
          (alter (fun paths => paths ++ [rel_path]) hash_value hash_dict)
  end.

Definition get_hash_dict (fs : node) (file_list : list string)
    (root_dir : option string) (dir_flag : bool)
  : result (gmap string (list string)) :=
  get_hash_dict_from fs file_list root_dir dir_flag ∅.

(** *** [get_safe_file_path] *)

(** The [while os.path.isfile(file_path)] loop; [None] when [fuel] rounds
    were not enough to reach a free path. *)
Fixpoint get_safe_file_path_loop (fuel : nat) (fs : node)
    (file_basename_noext : string) (filename_suffix : nat) (file_path : string)
  : option string :=
  match fuel with
  | 0 => None
  | S fuel' =>
      if isfile fs file_path
      then get_safe_file_path_loop fuel' fs file_basename_noext (S filename_suffix)
             (path_join (path_dirname file_path)
                (file_basename_noext +:+ "_" +:+ str_of_nat filename_suffix
                 +:+ snd (path_splitext file_path)))
      else Some file_path
  end.

Definition get_safe_file_path (fuel : nat) (fs : node) (file_path : string)
  : option string :=
  let file_basename_noext := fst (path_splitext (path_basename file_path)) in
  get_safe_file_path_loop fuel fs file_basename_noext 2 file_path.

(** *** [create_zip] *)

(** [for hash_value, relative_paths in d.items()]: a new digest gets the
    list, a known digest has the list appended to its own. *)
Definition merge_hash_dict (file_hash_dict d : gmap string (list string))
  : gmap string (list string) :=
  map_fold
    (fun hash_value relative_paths acc =>
       match acc !! hash_value with
       | None => <[hash_value := relative_paths]> acc
       | Some old => <[hash_value := old ++ relative_paths]> acc
       end)
    file_hash_dict d.

(** The root chosen for one input path. *)
Definition common_root_directory_of (input_paths : list string) (path : string)
    (path_separator : string) : result (option string) :=
  if length input_paths =? 1 then Ok (Some (path_dirname path))
  else get_common_root_directory input_paths path_separator.

(** The [for path in input_paths] loop, from the state reached so far:
    the run-wide dict, the file count and the entries written. *)
Fixpoint create_zip_from (fs : node) (input_paths : list string)
    (ignore_dotfiles ignore_windows_volume_folders : bool)
    (put_all_files_in_shared_root_dir : bool) (path_separator : string)
    (todo : list string)
    (st : gmap string (list string) * nat * archive)
  : result (gmap string (list string) * nat * archive) :=
  match todo with
  | [] => Ok st
  | path :: todo' =>
      let '(file_hash_dict, total_file_count, zip_handler) := st in
      common_root_directory ← common_root_directory_of input_paths path path_separator;
      if isdir fs path then
        '(file_list, total_size) ←
          get_file_paths_and_size fs [path] ignore_dotfiles
            ignore_windows_volume_folders;
        directory_hash_dict ←
          get_hash_dict fs file_list common_root_directory
            put_all_files_in_shared_root_dir;
        zip_handler ←
          add_files_to_zip fs file_list common_root_directory zip_handler
            put_all_files_in_shared_root_dir;
        create_zip_from fs input_paths ignore_dotfiles ignore_windows_volume_folders
          put_all_files_in_shared_root_dir path_separator todo'
          (merge_hash_dict file_hash_dict directory_hash_dict,
           total_file_count + length file_list, zip_handler)
      else
        individual_file_hash_dict ←
          get_hash_dict fs [path] common_root_directory
            put_all_files_in_shared_root_dir;
        zip_handler ←
          add_files_to_zip fs [path] common_root_directory zip_handler
            put_all_files_in_shared_root_dir;
        create_zip_from fs input_paths ignore_dotfiles ignore_windows_volume_folders
          put_all_files_in_shared_root_dir path_separator todo'
          (merge_hash_dict file_hash_dict individual_file_hash_dict,
           total_file_count + 1, zip_handler)
  end.

(** What lies at the output path. *)
Inductive disk :=
| Absent
| Partial
| Written (a : archive).

(** The world of a run: the tree the inputs are read from, and whether a
    file can be created at a path. The output archive and the error
    report are kept apart from the tree: the output is taken not to lie
    inside an input directory. *)
Record world := World { tree : node; creatable : string -> bool }.

(** [zipfile.ZipFile(output_path, "w", ...)] creates the file, or raises;
    an exception inside the [with] block leaves what was written. *)
Definition create_zip (w : world) (output_path : string) (input_paths : list string)
    (ignore_dotfiles ignore_windows_volume_folders : bool)
    (put_all_files_in_shared_root_dir : bool) (path_separator : string)
  : disk * result (gmap string (list string) * nat) :=
  if negb (creatable w output_path) then (Absent, Raise (IOError output_path))
  else
    match create_zip_from (tree w) input_paths ignore_dotfiles
            ignore_windows_volume_folders put_all_files_in_shared_root_dir
            path_separator input_paths (∅, 0, []) with
    | Ok (file_hash_dict, total_file_count, zip_handler) =>
        (Written zip_handler, Ok (file_hash_dict, total_file_count))
    | Raise e => (Partial, Raise e)
    end.

(** *** [main] *)

Record Args := {
  input_paths : list string;
  output_path : option string;
  root_directory : bool;
  ignore_dotfiles : bool;
  ignore_windows_volume_folders : bool;
}.

(** A line of the mismatch report, by the digest it is written for. *)
Inductive report_line :=
| HashNotPresent (hash_value : string) (file_paths : list string)
| FilesDoNotMatch (hash_value : string) (file_paths zip_file_paths : list string).


(** What the error file holds: the logged exception of the [except]
    branch, or the lines of the [else] branch. *)
Inductive report_file :=
| ExceptionLog (e : exn)
| MismatchLog (lines : list report_line).

(** How [main] ends. All but [Uncaught] are a normal return of [main]. *)
Inductive ending :=
| MissingSources
| CreationFailed (e : exn)
| Verified
| FailedVerification
| Uncaught (e : exn).

Record outcome := Outcome {
  ended : ending;
  archive_left : disk;
  error_file : option (string * report_file);
}.

(** The exit status of [python verizip.py]: the script calls [main()] and
    nothing else, so it is 0 when [main] returns and 1 when an exception
    leaves it. *)
Definition exit_status (o : outcome) : Z :=
  match ended o with
  | Uncaught _ => 1
  | _ => 0
  end.

Definition error_log_file_path_of (output_directory run_time_str : string) : string :=
  path_join output_directory (run_time_str +:+ "_verizip_error.txt").

(** The loop over [zip_handler.namelist()], from the dict and count built
    so far. *)
Fixpoint zip_hash_dict_from (zip_handler : archive) (zip_file_listing : list string)
    (st : gmap string (list string) * nat) : result (gmap string (list string) * nat) :=
  match zip_file_listing with
  | [] => Ok st
  | file_within_zip :: rest =>
      let '(zip_hash_dict, zip_file_count) := st in
      let zip_file_count := zip_file_count + 1 in
      hash_value ← hash_file_in_zip zip_handler file_within_zip "sha1";
      let zip_hash_dict :=
        match zip_hash_dict !! hash_value with
        | None => <[hash_value := []]> zip_hash_dict
        | Some _ => zip_hash_dict
        end in
      zip_hash_dict_from zip_handler rest
        (alter (fun names => names ++ [file_within_zip]) hash_value zip_hash_dict,
         zip_file_count)
  end.

Definition get_zip_hash_dict (zip_handler : archive)
  : result (gmap string (list string) * nat) :=
  zip_hash_dict_from zip_handler (namelist zip_handler) (∅, 0).

(** The condition of the final [if]. *)
Definition hashes_match (file_hash_dict zip_hash_dict : gmap string (list string))
    (total_file_count zip_file_count : nat) : bool :=
  bool_decide (file_hash_dict = zip_hash_dict) && (total_file_count =? zip_file_count).

(** The lines the [else] branch writes, one digest of the source dict
    after the other. *)
Definition mismatch_line (zip_hash_dict : gmap string (list string))
    (item : string * list string) : option report_line :=
  let '(hash_value, file_paths) := item in
  match zip_hash_dict !! hash_value with
  | None => Some (HashNotPresent hash_value file_paths)
  | Some zip_file_paths =>
      if bool_decide (sorted file_paths ≠ sorted zip_file_paths)
      then Some (FilesDoNotMatch hash_value file_paths zip_file_paths)
      else None
  end.

(** The lines of the error file, in the order of [map_to_list] where Python
    follows the insertion order of the dict. *)
Definition mismatch_lines (file_hash_dict zip_hash_dict : gmap string (list string))
  : list report_line :=
  omap (mismatch_line zip_hash_dict) (map_to_list file_hash_dict).

(** [main] after [create_zip] has returned: the archive is reopened and
    hashed, the two dicts and counts are compared. *)
Definition verify (w : world) (output_directory run_time_str : string)
    (file_hash_dict : gmap string (list string)) (total_file_count : nat)
    (zip_handler : archive) : outcome :=
  match get_zip_hash_dict zip_handler with
  | Raise e => Outcome (Uncaught e) (Written zip_handler) None
  | Ok (zip_hash_dict, zip_file_count) =>
      if hashes_match file_hash_dict zip_hash_dict total_file_count zip_file_count
      then Outcome Verified (Written zip_handler) None
      else
        let error_log_file_path :=
          error_log_file_path_of output_directory run_time_str in
        if negb (creatable w error_log_file_path)
        then Outcome (Uncaught (IOError error_log_file_path)) (Written zip_handler) None
        else Outcome FailedVerification Absent
               (Some (error_log_file_path,
                      MismatchLog (mismatch_lines file_hash_dict zip_hash_dict)))
  end.

(** [main] from the [try] on, for the output path and directory chosen. *)
Definition main_from (w : world) (args : Args) (input_paths : list string)
    (output_path output_directory run_time_str path_separator : string) : outcome :=
  match create_zip w output_path input_paths (ignore_dotfiles args)
          (ignore_windows_volume_folders args) (root_directory args)
          path_separator with
  | (on_disk, Raise e) =>
      let error_log_file_path :=
        error_log_file_path_of output_directory run_time_str in
      if negb (creatable w error_log_file_path)
      then Outcome (Uncaught (IOError error_log_file_path)) on_disk None
      else Outcome (CreationFailed e) Absent
             (Some (error_log_file_path, ExceptionLog e))
  | (Written zip_handler, Ok (file_hash_dict, total_file_count)) =>
      verify w output_directory run_time_str file_hash_dict total_file_count
        zip_handler
  | (on_disk, Ok _) =>
      (* [zipfile.ZipFile(output_path, "r")] finds no finished archive *)
      Outcome (Uncaught (IOError output_path)) on_disk None
  end.

(** The output path and directory [main] settles on; [None] when the
    search for a free path ran out of [fuel]. [input_paths[-1]] raises on
    an empty list. *)
Definition output_location (fuel : nat) (w : world) (args : Args)
    (input_paths : list string) (run_time_str : string)
  : option (result (string * string)) :=
  match output_path args with
  | Some output_path => Some (Ok (output_path, path_dirname output_path))
  | None =>
      let output_directory :=
        if check_running_from_automator
        then match last input_paths with
             | Some last_path => Ok (path_dirname last_path)
             | None => Raise IndexError
             end
        else Ok "." in
      let output_filename :=
        match input_paths with
        | [only] => path_basename (only +:+ ".zip")
        | _ => run_time_str +:+ "_archive.zip"
        end in
      match output_directory with
      | Raise e => Some (Raise e)
      | Ok output_directory =>
          match get_safe_file_path fuel (tree w)
                  (path_join output_directory output_filename) with
          | Some output_path => Some (Ok (output_path, output_directory))
          | None => None
          end
      end
  end.

Definition main (fuel : nat) (w : world) (args : Args) (run_time_str : string)
  : option outcome :=
  if negb (bool_decide (get_missing_sources (tree w) (input_paths args) false = []))
  then Some (Outcome MissingSources Absent None)
  else
    let path_separator := if is_windows then String backslash "" else "/" in
    let input_paths := map path_abspath (input_paths args) in
    match output_location fuel w args input_paths run_time_str with
    | None => None
    | Some (Raise e) => Some (Outcome (Uncaught e) Absent None)
    | Some (Ok (output_path, output_directory)) =>
        Some (main_from w args input_paths output_path output_directory
                run_time_str path_separator)
    end.
End Host.

(** ** SHA-1, the default algorithm *)

(** [hashlib.sha1] after FIPS 180-4, on 32-bit words held in [N]. The hash
    object keeps the bytes it was fed; [hexdigest] hashes them. *)
Module sha1.

Definition add32 (a b : N) : N := ((a + b) mod 2 ^ 32)%N.

Definition rotl (n x : N) : N :=
  N.lor (N.shiftl x n mod 2 ^ 32)%N (N.shiftr x (32 - n)).

Definition not32 (x : N) : N := N.lxor x 0xFFFFFFFF%N.

(** Big-endian words of a byte sequence whose length is a multiple of 4. *)
Fixpoint words_of_bytes (l : list N) : list N :=
  match l with
  | a :: b :: c :: d :: r =>
      (a * 2 ^ 24 + b * 2 ^ 16 + c * 2 ^ 8 + d)%N :: words_of_bytes r
  | _ => []
  end.

(** The eight bytes of the message length in bits, most significant
    first. *)
Definition length_bytes (bits : N) : list N :=
  map (fun i => (N.shiftr bits (8 * i) mod 256)%N) [7; 6; 5; 4; 3; 2; 1; 0]%N.

Definition pad (msg : list N) : list N :=
  let len := length msg in
  let zeros := (119 - len mod 64) mod 64 in
  msg ++ [128%N] ++ replicate zeros 0%N ++ length_bytes (8 * N.of_nat len).

(** The message schedule: [n] more words after those of [w]. *)
Fixpoint schedule (n : nat) (w : list N) : list N :=
  match n with
  | 0 => w
  | S n' =>
      let i := length w in
      let at_ k := nth (i - k) w 0%N in
      schedule n'
        (w ++ [rotl 1 (N.lxor (N.lxor (at_ 3) (at_ 8)) (N.lxor (at_ 14) (at_ 16)))])
  end.

Definition round (st : N * N * N * N * N) (tw : nat * N) : N * N * N * N * N :=
  let '(a, b, c, d, e) := st in
  let '(t, w) := tw in
  let '(f, k) :=
    if t <? 20 then (N.lor (N.land b c) (N.land (not32 b) d), 0x5A827999%N)
    else if t <? 40 then (N.lxor (N.lxor b c) d, 0x6ED9EBA1%N)
    else if t <? 60
    then (N.lor (N.lor (N.land b c) (N.land b d)) (N.land c d), 0x8F1BBCDC%N)
    else (N.lxor (N.lxor b c) d, 0xCA62C1D6%N) in
  let temp := add32 (add32 (add32 (add32 (rotl 5 a) f) e) k) w in
  (temp, a, rotl 30 b, c, d).

Definition compress (h : N * N * N * N * N) (block : list N) : N * N * N * N * N :=
  let w := schedule 64 (words_of_bytes block) in
  let '(a, b, c, d, e) := fold_left round (imap (fun t x => (t, x)) w) h in
  let '(h0, h1, h2, h3, h4) := h in
  (add32 h0 a, add32 h1 b, add32 h2 c, add32 h3 d, add32 h4 e).

(** The 64-byte blocks of a padded message, [n] of them. *)
Fixpoint blocks (n : nat) (l : list N) : list (list N) :=
  match n with
  | 0 => []
  | S n' => take 64 l :: blocks n' (drop 64 l)
  end.

Definition initial : N * N * N * N * N :=
  (0x67452301, 0xEFCDAB89, 0x98BADCFE, 0x10325476, 0xC3D2E1F0)%N.

Definition hex_digit (x : N) : ascii :=
  ascii_of_N (if (x <? 10)%N then 48 + x else 87 + x)%N.

(** The eight lowercase hexadecimal digits of a word. *)
Definition hex_word (x : N) : string :=
  String.string_of_list_ascii
    (map (fun i => hex_digit (N.shiftr x (4 * i) mod 16)%N) [7; 6; 5; 4; 3; 2; 1; 0]%N).

Definition digest (msg : bytes) : string :=
  let padded := pad (map Byte.to_N msg) in
  let '(h0, h1, h2, h3, h4) :=
    fold_left compress (blocks (length padded / 64) padded) initial in
  hex_word h0 +:+ hex_word h1 +:+ hex_word h2 +:+ hex_word h3 +:+ hex_word h4.

End sha1.

(** [hashlib] with its SHA-1 constructor, whatever name is asked for: the
    script only ever asks for the default. *)
#[global] Instance hashlib_sha1 : Hashlib := {|
  hash_object := bytes;
  hashlib_new := fun _ => [];
  update := fun h data => h ++ data;
  hexdigest := sha1.digest;
|}.

(** ** Vocabulary of the properties *)

(** The longest list that is a prefix of both [a] and [b]. *)
Fixpoint longest_common_prefix (a b : list string) : list string :=
  match a, b with
  | x :: a', y :: b' => if String.eqb x y then x :: longest_common_prefix a' b' else []
  | _, _ => []
  end.

#[global] Instance byte_eq_decision : EqDecision Byte.byte := Byte.byte_eq_dec.

(** Entries of an archive that bear the same name hold the same bytes. *)
Definition archive_consistent (a : archive) : Prop :=
  Forall (fun e => Forall (fun e' => ze_name e = ze_name e' -> ze_data e = ze_data e') a) a.

#[global] Instance archive_consistent_dec (a : archive) : Decision (archive_consistent a).
Proof. unfold archive_consistent. apply _. Defined.

(** Equality of the values of a run is decidable, so that a closed equation
    between them is settled by evaluation. *)
#[global] Instance exn_eq_dec : EqDecision exn.
Proof. solve_decision. Defined.
#[global] Instance result_eq_dec {A} `{EqDecision A} : EqDecision (result A).
Proof. solve_decision. Defined.
#[global] Instance zip_entry_eq_dec : EqDecision zip_entry.
Proof. solve_decision. Defined.
#[global] Instance disk_eq_dec : EqDecision disk.
Proof. solve_decision. Defined.
#[global] Instance report_line_eq_dec : EqDecision report_line.
Proof. solve_decision. Defined.
#[global] Instance report_file_eq_dec : EqDecision report_file.
Proof. solve_decision. Defined.
#[global] Instance ending_eq_dec : EqDecision ending.
Proof. solve_decision. Defined.
#[global] Instance outcome_eq_dec : EqDecision outcome.
Proof. solve_decision. Defined.

(** ** Example inputs *)

Definition hi : bytes := ["h"; "i"]%byte.

(** The example of the specification: [/a/x.txt] and [/a/y.txt], both with
    the bytes of "hi". *)
Definition two_copies : node :=
  Dir true [("a", Dir true [("x.txt", File true hi); ("y.txt", File true hi)])].

(** A directory with a pipe next to a regular file. *)
Definition with_pipe : node :=
  Dir true [("a", Dir true [("x.txt", File true hi); ("pipe", Special)])].

Section HostVocabulary.
Context `{Os} `{Hashlib}.

(** The digest string the two hashing functions compute for a content. *)
Definition content_digest (algorithm : string) (content : bytes) : string :=
  hexdigest
    (hash_file_at_path_loop (64 * 1024) (S (length content)) (hashlib_new algorithm)
       content).

(** The files one round of the loop of [create_zip] hashes and writes for
    the input [path]: the enumeration of a directory, the path itself
    otherwise. *)
Definition files_of_input (fs : node)
    (ignore_dotfiles ignore_windows_volume_folders : bool) (path : string)
  : result (list string) :=
  if isdir fs path
  then '(file_list, _) ← get_file_paths_and_size fs [path] ignore_dotfiles
                           ignore_windows_volume_folders;
       Ok file_list
  else Ok [path].

End HostVocabulary.


(** A world in which every file can be created. *)
Definition writable (fs : node) : world := World fs (fun _ => true).

Definition sha1_hi : string := "c22b5f9178342609428d6f51b2c5af4c0bde6a42".

Definition abc : bytes := ["a"; "b"; "c"]%byte.

(** [-o /out.zip /a] *)
Definition archive_a : Args := {|
  input_paths := ["/a"];
  output_path := Some "/out.zip";
  root_directory := false;
  ignore_dotfiles := false;
  ignore_windows_volume_folders := false;
|}.

(** [leads_to n names]: going down from the directory [n] along the entry
    names [names] ends at an entry that is not a directory. *)
Inductive leads_to : node -> list string -> Prop :=
| leads_to_file (listable : bool) (entries : list (string * node))
    (name : string) (child : node) :
    (name, child) ∈ entries -> is_dir_node child = false ->
    leads_to (Dir listable entries) [name]
| leads_to_dir (listable : bool) (entries : list (string * node))
    (name : string) (child : node) (names : list string) :
    (name, child) ∈ entries -> is_dir_node child = true -> leads_to child names ->
    leads_to (Dir listable entries) (name :: names).

(** A directory with a dotfile, a dot-directory, a recycle bin and, further
    down, a volume information folder. *)
Definition with_hidden : node :=
  Dir true
    [("d", Dir true
        [("keep.txt", File true hi);
         (".profile", File true abc);
         (".git", Dir true [("config", File true abc)]);
         ("$RECYCLE.BIN", Dir true [("junk", File true abc)]);
         ("sub", Dir true
            [("System Volume Information", Dir true [("s", File true hi)]);
             ("deep.txt", File true hi)])])].

(** ** Vocabulary for POSIX paths *)

Abbreviation no_sep s := (contains_char posixpath.sep s = false).
Abbreviation no_dot s := (contains_char "."%char s = false).

(** What [dirname] returns is empty, made of slashes only, or does not end
    with a slash. *)
Definition dirname_shaped (d : string) : Prop :=
  d = "" ∨ posixpath.all_sep d = true ∨ endswith_char d posixpath.sep = false.

(** The extension [splitext] finds in a file name. *)
Definition ext_of (name : string) : string :=
  let '(stem, ext) := posixpath.rsplit_dot name in
  if negb (String.eqb ext "") && negb (posixpath.all_dots stem) then ext else "".

(** The path [get_safe_file_path] tries in round [k] on a POSIX host: the
    requested path in round 0, then the name with [_2], [_3], ... put
    before its extension. *)
Definition safe_path_candidate (file_path : string) (k : nat) : string :=
  match k with
  | 0 => file_path
  | S _ =>
      posixpath.join (posixpath.dirname file_path)
        (fst (posixpath.splitext (posixpath.basename file_path))
         +:+ "_" +:+ str_of_nat (S k) +:+ snd (posixpath.splitext file_path))
  end.

(** A file or directory name as a path component: not empty, not [.] or
    [..], without slash and without null byte. *)
Definition clean_name (c : string) : Prop :=
  c ≠ "" ∧ c ≠ "." ∧ c ≠ ".."
  ∧ contains_char posixpath.sep c = false ∧ contains_char Ascii.zero c = false.

#[global] Instance clean_name_dec (c : string) : Decision (clean_name c).
Proof. unfold clean_name. apply _. Defined.

(** The normalised absolute POSIX path with the given components. *)
Definition absolute_path (comps : list string) : string :=
  "/" +:+ str_join "/" comps.

(** A directory that holds [out.zip] and [out_2.zip]. *)
Definition with_outputs : node :=
  Dir true [("w", Dir true [("out.zip", File true hi); ("out_2.zip", File true abc)])].

(** ** Vocabulary for the hash indices of a run *)

(** The names that come with the digest [hash_value] in a sequence of
    (digest, name) pairs, in the order of the sequence. *)
Definition names_under (hash_value : string) (items : list (string * string))
  : list string :=
  map snd (filter (λ item, item.1 = hash_value) items).

(** The index that groups a sequence of (digest, name) pairs by digest: a
    digest without a name has no key. *)
Definition index_of_items (items : list (string * string)) (hash_value : string)
  : option (list string) :=
  match names_under hash_value items with
  | [] => None
  | names => Some names
  end.

(** The list of a key after more names were appended to it. *)
Definition grown (old : option (list string)) (names : list string)
  : option (list string) :=
  match old, names with
  | None, [] => None
  | _, _ => Some (default [] old ++ names)
  end.

(** The bytes [zip_handler.open(name)] reads: those of the last entry that
    bears the name. *)
Definition data_in_zip (zip_handler : archive) (name : string) : bytes :=
  match getinfo zip_handler name with
  | Some e => ze_data e
  | None => []
  end.


Section RunVocabulary.
Context `{Os} `{Hashlib}.






(** The (digest, name) pairs the pass over [namelist] meets. *)
Definition zip_items (zip_handler : archive) : list (string * string) :=
  map (λ name, (content_digest "sha1" (data_in_zip zip_handler name), name))
    (namelist zip_handler).

End RunVocabulary.

Section WriteVocabulary.
Context `{Os} `{Hashlib}.


End WriteVocabulary.

(** ** Trees of regular, readable files *)



(** A world in which the archive can be created at [/out.zip] and nothing
    else can be. *)
Definition only_archive_creatable (fs : node) : world :=
  World fs (λ p, String.eqb p "/out.zip").




(** A name that [normpath] keeps as a component: not empty, not [.] or
    [..], without slash. *)
Definition plain_name (c : string) : Prop :=
  c ≠ "" ∧ c ≠ "." ∧ c ≠ ".." ∧ no_sep c.

(** The file name of the path [get_safe_file_path] tries with the suffix
    [suffix], on a POSIX host. *)
Definition safe_name (file_path : string) (suffix : nat) : string :=
  fst (posixpath.splitext (posixpath.basename file_path))
  +:+ "_" +:+ str_of_nat suffix +:+ snd (posixpath.splitext file_path).

(** * Properties *)

(** ** Strings and POSIX paths *)

Lemma app_String (a : ascii) (s t : string) : String a s +:+ t = String a (s +:+ t).
Proof. reflexivity. Qed.

Lemma app_empty_l (s : string) : "" +:+ s = s.
Proof. reflexivity. Qed.

Lemma app_empty_r (s : string) : s +:+ "" = s.
Proof. induction s as [|a s IH]; [done|]. by rewrite app_String, IH. Qed.

Lemma app_assoc_str (s t u : string) : (s +:+ t) +:+ u = s +:+ t +:+ u.
Proof. induction s as [|a s IH]; [done|]. by rewrite !app_String, IH. Qed.

Lemma str_join_cons (sep x y : string) (l : list string) :
  str_join sep (x :: y :: l) = x +:+ sep +:+ str_join sep (y :: l).
Proof. reflexivity. Qed.

(** Closed conjunctions are settled conjunct by conjunct, by evaluation. *)
Ltac each_computed := repeat match goal with |- _ ∧ _ => split end; compute_done.

Ltac str_simpl := repeat (rewrite ?app_String, ?app_empty_l; simpl).

Lemma contains_char_app (c : ascii) (s t : string) :
  contains_char c (s +:+ t) = contains_char c s || contains_char c t.
Proof.
  induction s as [|a s IH]; [done|]. str_simpl. rewrite IH. by rewrite orb_assoc.
Qed.

Lemma string_of_uint_digits (c : ascii) (u : Decimal.uint) :
  (Ascii.ltb c "0" || Ascii.ltb "9" c = true)%char →
  contains_char c (NilEmpty.string_of_uint u) = false.
Proof.
  intros Hc. induction u as [|u IH|u IH|u IH|u IH|u IH|u IH|u IH|u IH|u IH|u IH];
    cbn [NilEmpty.string_of_uint contains_char]; [done|..];
    rewrite IH, orb_false_r; apply Ascii.eqb_neq; intros <-;
    vm_compute in Hc; discriminate.
Qed.

Lemma str_of_nat_no_char (c : ascii) (n : nat) :
  (Ascii.ltb c "0" || Ascii.ltb "9" c = true)%char →
  contains_char c (str_of_nat n) = false.
Proof. apply string_of_uint_digits. Qed.

Module posix_facts.
Import posixpath.

Lemma startswith_sep (a : ascii) (s : string) :
  startswith (String a s) "/" = Ascii.eqb a sep.
Proof.
  unfold startswith. cbn [String.prefix].
  destruct (ascii_dec "/" a) as [<-|Hne]; [by destruct s|].
  symmetry. apply Ascii.eqb_neq. unfold sep. congruence.
Qed.

Lemma no_sep_startswith (s : string) : no_sep s → startswith s "/" = false.
Proof.
  destruct s as [|a s]; [done|]. rewrite startswith_sep. simpl.
  by intros [? _]%orb_false_iff.
Qed.

(** *** [rsplit_sep], [basename] and [dirname] *)

Lemma rsplit_sep_no_sep (s : string) : no_sep s → rsplit_sep s = ("", s).
Proof.
  induction s as [|a s IH]; [done|]. simpl. intros [Ha Hs]%orb_false_iff.
  rewrite IH by done. by rewrite Ha.
Qed.

Lemma rsplit_sep_app (a b : string) :
  no_sep b →
  rsplit_sep (a +:+ b) = (fst (rsplit_sep a), snd (rsplit_sep a) +:+ b).
Proof.
  intros Hb. induction a as [|c a IH].
  - by rewrite app_empty_l, rsplit_sep_no_sep.
  - rewrite app_String. simpl. rewrite IH.
    destruct (rsplit_sep a) as [h tl]. simpl.
    destruct h; [destruct (Ascii.eqb c sep)|]; done.
Qed.

Lemma rsplit_sep_ends_with_sep (a : string) :
  rsplit_sep (a +:+ "/") = (a +:+ "/", "").
Proof.
  induction a as [|c a IH]; [done|]. rewrite app_String. simpl. rewrite IH.
  by destruct a.
Qed.

Lemma rsplit_sep_join (a b : string) :
  no_sep b → rsplit_sep (a +:+ "/" +:+ b) = (a +:+ "/", b).
Proof.
  intros Hb. rewrite <- app_assoc_str, rsplit_sep_app by done.
  by rewrite rsplit_sep_ends_with_sep.
Qed.

Lemma rsplit_sep_parts (p : string) :
  fst (rsplit_sep p) +:+ snd (rsplit_sep p) = p ∧ no_sep (snd (rsplit_sep p)).
Proof.
  induction p as [|c p [IH1 IH2]]; [done|]. simpl.
  destruct (rsplit_sep p) as [h tl]. simpl in *.
  destruct h as [|c' h].
  - rewrite app_empty_l in IH1. subst tl.
    destruct (Ascii.eqb c sep) eqn:Hc; simpl; [done|]. by rewrite Hc.
  - simpl. by rewrite !app_String, <- IH1.
Qed.

Lemma basename_no_sep (p : string) : no_sep (basename p).
Proof. apply rsplit_sep_parts. Qed.

Lemma endswith_char_app_char (s : string) (c : ascii) :
  endswith_char (s +:+ String c "") c = true.
Proof.
  induction s as [|a s IH]; [simpl; apply Ascii.eqb_refl|].
  rewrite app_String. simpl. destruct (s +:+ String c "") eqn:Hs; [|done].
  by destruct s.
Qed.

Lemma endswith_char_inv (s : string) (c : ascii) :
  endswith_char s c = true → ∃ s', s = s' +:+ String c "".
Proof.
  induction s as [|a s IH]; [done|]. simpl. destruct s as [|b s].
  - intros ->%Ascii.eqb_eq. by exists "".
  - intros [s' ->]%IH. by exists (String a s').
Qed.

Lemma endswith_char_app (s t : string) (c : ascii) :
  t ≠ "" → endswith_char (s +:+ t) c = endswith_char t c.
Proof.
  intros Ht. induction s as [|a s IH]; [done|]. rewrite app_String. simpl.
  destruct (s +:+ t) eqn:Hst; [|done]. by destruct s, t.
Qed.

Lemma all_sep_app (s t : string) : all_sep (s +:+ t) = all_sep s && all_sep t.
Proof.
  induction s as [|a s IH]; [done|]. rewrite app_String. simpl. rewrite IH.
  by rewrite andb_assoc.
Qed.

Lemma rstrip_sep_all_sep (s : string) : all_sep s = true → rstrip_sep s = "".
Proof.
  induction s as [|a s IH]; [done|]. simpl. intros [Ha Hs]%andb_true_iff.
  by rewrite IH, Ha.
Qed.

Lemma rstrip_sep_app_sep (s : string) : rstrip_sep (s +:+ "/") = rstrip_sep s.
Proof.
  induction s as [|a s IH]; [done|]. rewrite app_String. simpl. by rewrite IH.
Qed.

Lemma rstrip_sep_id (s : string) : endswith_char s sep = false → rstrip_sep s = s.
Proof.
  induction s as [|a s IH]; [done|]. simpl. destruct s as [|b s].
  - intros ->. done.
  - intros Hs. rewrite IH by done. done.
Qed.

Lemma rstrip_sep_not_ending (s : string) : endswith_char (rstrip_sep s) sep = false.
Proof.
  induction s as [|a s IH]; [done|]. simpl.
  destruct (rstrip_sep s) as [|b r] eqn:Hr.
  - destruct (Ascii.eqb a sep) eqn:Ha; [done|]. simpl. done.
  - simpl in *. done.
Qed.

Lemma dirname_is_shaped (p : string) : dirname_shaped (dirname p).
Proof.
  unfold dirname, dirname_shaped. destruct (fst (rsplit_sep p)) as [|a h] eqn:Hh.
  - by left.
  - change (String.eqb (String a h) "") with false. cbn [negb andb].
    destruct (all_sep (String a h)) eqn:Hall; cbn [negb].
    + right. by left.
    + right. right. apply rstrip_sep_not_ending.
Qed.

(** *** [join] *)

Lemma join_no_sep (d n : string) :
  no_sep n →
  join d n = if String.eqb d "" || endswith_char d sep then d +:+ n else d +:+ "/" +:+ n.
Proof. intros Hn. unfold join. by rewrite no_sep_startswith. Qed.

Lemma basename_join (d n : string) : no_sep n → basename (join d n) = n.
Proof.
  intros Hn. rewrite join_no_sep by done. unfold basename.
  destruct (String.eqb_spec d "") as [->|Hd]; cbn [orb].
  - by rewrite app_empty_l, rsplit_sep_no_sep.
  - destruct (endswith_char d sep) eqn:Hend.
    + apply endswith_char_inv in Hend as [d' ->].
      by rewrite app_assoc_str, rsplit_sep_join.
    + by rewrite rsplit_sep_join.
Qed.

Lemma all_sep_not_ending (d : string) :
  d ≠ "" → endswith_char d sep = false → all_sep d = false.
Proof.
  induction d as [|a d IH]; [done|]. intros _. simpl. destruct d as [|b d].
  - intros ->. done.
  - intros Hend. rewrite IH by done. apply andb_false_r.
Qed.

Lemma dirname_join (d n : string) :
  dirname_shaped d → no_sep n → dirname (join d n) = d.
Proof.
  intros Hd Hn. rewrite join_no_sep by done. unfold dirname.
  destruct (String.eqb_spec d "") as [->|Hne]; cbn [orb].
  - by rewrite app_empty_l, rsplit_sep_no_sep.
  - destruct (endswith_char d sep) eqn:Hend.
    + destruct Hd as [->|[Hall|Hno]]; [done| |congruence].
      apply endswith_char_inv in Hend as [d' ->]. unfold sep in *.
      rewrite app_assoc_str, rsplit_sep_join by done. cbn [fst].
      by rewrite Hall, andb_false_r.
    + rewrite rsplit_sep_join by done. cbn [fst].
      assert (all_sep (d +:+ "/") = false) as ->.
      { by rewrite all_sep_app, all_sep_not_ending. }
      assert (String.eqb (d +:+ "/") "" = false) as -> by (by destruct d).
      cbn [negb andb]. by rewrite rstrip_sep_app_sep, rstrip_sep_id.
Qed.

(** *** [rsplit_dot] and [splitext] *)

Lemma rsplit_dot_no_dot (s : string) : no_dot s → rsplit_dot s = (s, "").
Proof.
  induction s as [|a s IH]; [done|]. simpl. intros [Ha Hs]%orb_false_iff.
  rewrite IH by done. by rewrite Ha.
Qed.

Lemma rsplit_dot_last (a e : string) :
  no_dot e → rsplit_dot (a +:+ "." +:+ e) = (a, "." +:+ e).
Proof.
  intros He. induction a as [|c a IH].
  - rewrite app_empty_l. change ("." +:+ e) with (String "." e).
    cbn [rsplit_dot]. by rewrite rsplit_dot_no_dot.
  - rewrite app_String. cbn [rsplit_dot]. by rewrite IH.
Qed.

(** The result of [rsplit_dot]: the two parts make up the string, and the
    second is empty, the string then having no dot, or is a dot followed by
    dotless characters. *)
Lemma rsplit_dot_parts (s : string) :
  fst (rsplit_dot s) +:+ snd (rsplit_dot s) = s
  ∧ (snd (rsplit_dot s) = "" ∧ no_dot s
     ∨ ∃ e, snd (rsplit_dot s) = "." +:+ e ∧ no_dot e).
Proof.
  induction s as [|c s [IH1 IH2]]; [by split; [|left]|]. cbn [rsplit_dot].
  destruct (rsplit_dot s) as [st ex]. cbn [fst snd] in *.
  destruct ex as [|x ex].
  - destruct IH2 as [[_ Hs]|(e & He & _)]; [|done].
    rewrite app_empty_r in IH1. subst st.
    destruct (Ascii.eqb_spec c ".") as [->|Hc]; cbn [fst snd].
    + split; [done|]. right. by exists s.
    + split; [by rewrite app_empty_r|]. left. split; [done|]. simpl.
      rewrite Hs, orb_false_r. by apply Ascii.eqb_neq.
  - cbn [fst snd]. split; [by rewrite app_String, IH1|].
    destruct IH2 as [[? _]|?]; [done|by right].
Qed.

Lemma splitext_ext (p : string) : snd (splitext p) = ext_of (basename p).
Proof.
  unfold splitext, ext_of, basename. destruct (rsplit_sep p) as [head name].
  cbn [snd]. destruct (rsplit_dot name) as [stem ext].
  by destruct (negb (String.eqb ext "") && negb (all_dots stem)).
Qed.

Lemma splitext_name (name : string) :
  no_sep name →
  splitext name
  = (let '(stem, ext) := rsplit_dot name in
     if negb (String.eqb ext "") && negb (all_dots stem) then (stem, ext)
     else (name, "")).
Proof.
  intros Hn. unfold splitext. rewrite rsplit_sep_no_sep by done.
  by destruct (rsplit_dot name) as [stem ext].
Qed.

Lemma all_dots_app (s t : string) : all_dots (s +:+ t) = all_dots s && all_dots t.
Proof.
  induction s as [|a s IH]; [done|]. rewrite app_String. simpl. rewrite IH.
  by rewrite andb_assoc.
Qed.

(** A suffix without dot or slash, put before the extension of a name,
    leaves the extension as it is. *)
Lemma ext_of_suffixed (name suffix : string) :
  no_sep name → no_dot suffix → suffix ≠ "" → all_dots suffix = false →
  ext_of (fst (splitext name) +:+ suffix +:+ snd (splitext name)) = ext_of name.
Proof.
  intros Hname Hsuffix Hne Hnd. rewrite splitext_name by done. unfold ext_of at 2.
  destruct (rsplit_dot_parts name) as [Hparts Hshape].
  destruct (rsplit_dot name) as [stem ext]. cbn [fst snd] in *.
  destruct (negb (String.eqb ext "") && negb (all_dots stem)) eqn:Hcond; cbn [fst snd].
  - apply andb_true_iff in Hcond as [Hext Hstem].
    destruct Hshape as [[-> _]|(e & -> & He)]; [done|].
    unfold ext_of. rewrite <- app_assoc_str, rsplit_dot_last by done.
    by rewrite all_dots_app, (proj1 (negb_true_iff _) Hstem).
  - rewrite app_empty_r. unfold ext_of.
    destruct Hshape as [[-> Hnodot]|(e & -> & He)].
    + rewrite rsplit_dot_no_dot; [done|].
      by rewrite contains_char_app, Hnodot, Hsuffix.
    + change ("." +:+ e) with (String "." e) in Hcond.
      cbn [negb andb String.eqb] in Hcond. apply negb_false_iff in Hcond.
      rewrite <- Hparts, app_assoc_str.
      change ("." +:+ e) with (String "." e). rewrite app_String.
      change (String "." (e +:+ suffix)) with ("." +:+ (e +:+ suffix)).
      rewrite rsplit_dot_last by (by rewrite contains_char_app, He, Hsuffix).
      by rewrite Hcond, andb_false_r.
Qed.
End posix_facts.

(** ** Components of POSIX paths *)

Module component_facts.
Import posixpath posix_facts.

Lemma startswith_cons (a b : ascii) (s p : string) :
  startswith (String a s) (String b p) = Ascii.eqb a b && startswith s p.
Proof.
  unfold startswith. cbn [String.prefix].
  destruct (ascii_dec b a) as [->|Hne].
  - by rewrite Ascii.eqb_refl.
  - by rewrite (proj2 (Ascii.eqb_neq a b)) by congruence.
Qed.

Lemma split_go_cons (a : ascii) (t : string) :
  split_go "/" 0 (String a t)
  = if Ascii.eqb a sep then "" :: split_go "/" 0 t
    else match split_go "/" 0 t with
         | w :: ws => String a w :: ws
         | [] => [String a ""]
         end.
Proof.
  cbn [split_go]. pose proof (startswith_sep a t) as Hs. unfold startswith in Hs.
  rewrite Hs. by destruct (Ascii.eqb a sep).
Qed.

Lemma split_go_no_sep (c : string) : no_sep c → split_go "/" 0 c = [c].
Proof.
  induction c as [|a c IH]; [done|]. intros [Ha Hc]%orb_false_iff.
  by rewrite split_go_cons, Ha, IH.
Qed.

Lemma split_go_join (c t : string) :
  no_sep c → split_go "/" 0 (c +:+ "/" +:+ t) = c :: split_go "/" 0 t.
Proof.
  induction c as [|a c IH]; intros Hc.
  - rewrite app_empty_l. change ("/" +:+ t) with (String "/" t).
    by rewrite split_go_cons.
  - apply orb_false_iff in Hc as [Ha Hc].
    by rewrite app_String, split_go_cons, Ha, IH.
Qed.

Lemma split_go_str_join (cs : list string) :
  Forall (λ c, no_sep c) cs → cs ≠ [] → split_go "/" 0 (str_join "/" cs) = cs.
Proof.
  induction cs as [|c cs IH]; [done|]. intros [Hc Hcs]%Forall_cons _.
  destruct cs as [|c' cs]; [by apply split_go_no_sep|].
  cbn [str_join]. rewrite split_go_join by done. f_equal. by apply IH.
Qed.

Lemma clean_name_no_sep (cs : list string) :
  Forall clean_name cs → Forall (λ c, no_sep c) cs.
Proof. intros Hcs. eapply Forall_impl; [done|]. by intros c (_ & _ & _ & ? & _). Qed.

Lemma split_go_absolute_path (cs : list string) :
  Forall clean_name cs →
  split_go "/" 0 (absolute_path cs) = "" :: (if cs is [] then [""] else cs).
Proof.
  intros Hcs. unfold absolute_path. change ("/" +:+ ?s) with (String "/" s).
  rewrite split_go_cons. cbn [Ascii.eqb]. f_equal.
  destruct cs as [|c cs]; [done|].
  by rewrite split_go_str_join by (done || by apply clean_name_no_sep).
Qed.

(** *** [normpath] *)

Lemma normpath_step_clean (k : nat) (acc : list string) (c : string) :
  clean_name c → normpath_step k acc c = acc ++ [c].
Proof.
  intros (H1 & H2 & H3 & _). unfold normpath_step.
  rewrite (proj2 (String.eqb_neq _ _) H1), (proj2 (String.eqb_neq _ _) H2),
    (proj2 (String.eqb_neq _ _) H3). done.
Qed.

Lemma normpath_fold_clean (k : nat) (acc cs : list string) :
  Forall clean_name cs → fold_left (normpath_step k) cs acc = acc ++ cs.
Proof.
  revert acc. induction cs as [|c cs IH]; intros acc Hcs; [by rewrite app_nil_r|].
  apply Forall_cons in Hcs as [Hc Hcs]. cbn [fold_left].
  by rewrite normpath_step_clean, IH, <- app_assoc.
Qed.

Lemma str_join_first_not_sep (cs : list string) :
  Forall clean_name cs → cs ≠ [] → startswith (str_join "/" cs) "/" = false.
Proof.
  destruct cs as [|c cs]; [done|]. intros [(Hne & _ & _ & Hsep & _) _]%Forall_cons _.
  destruct c as [|a c]; [done|].
  assert (∃ rest, str_join "/" (String a c :: cs) = String a rest) as [rest ->].
  { destruct cs; [by eexists|]. cbn [str_join]. rewrite app_String. by eexists. }
  rewrite startswith_sep. simpl in Hsep. by apply orb_false_iff in Hsep as [? _].
Qed.



Lemma absolute_path_slashes (cs : list string) :
  Forall clean_name cs →
  startswith (absolute_path cs) "/" = true ∧ startswith (absolute_path cs) "//" = false.
Proof.
  intros Hcs. unfold absolute_path. change ("/" +:+ ?s) with (String "/" s).
  split; [by rewrite startswith_sep|].
  change "//" with (String "/" "/"). rewrite startswith_cons. cbn [Ascii.eqb andb].
  destruct cs as [|c cs]; [done|]. by apply str_join_first_not_sep.
Qed.

Lemma normpath_absolute (cs : list string) :
  Forall clean_name cs → normpath (absolute_path cs) = absolute_path cs.
Proof.
  intros Hcs. unfold normpath.
  destruct (absolute_path_slashes cs Hcs) as [-> ->].
  rewrite split_go_absolute_path by done.
  replace (String.eqb (absolute_path cs) "") with false by reflexivity.
  cbn [andb fold_left].
  replace (normpath_step 1 [] "") with (@nil string) by reflexivity.
  destruct cs as [|c cs]; [reflexivity|].
  rewrite normpath_fold_clean by done. reflexivity.
Qed.
End component_facts.

(** ** Lists of components *)

Lemma longest_common_prefix_spec (a b l : list string) :
  l `prefix_of` longest_common_prefix a b ↔ l `prefix_of` a ∧ l `prefix_of` b.
Proof.
  revert b l. induction a as [|x a IH]; intros [|y b] l; simpl.
  - split; [intros ->%prefix_nil_inv|intros [->%prefix_nil_inv _]]; auto using prefix_nil.
  - split; [intros ->%prefix_nil_inv|intros [->%prefix_nil_inv _]]; auto using prefix_nil.
  - split; [intros ->%prefix_nil_inv|intros [_ ->%prefix_nil_inv]]; auto using prefix_nil.
  - destruct (String.eqb_spec x y) as [->|Hne].
    + destruct l as [|z l].
      * split; auto using prefix_nil.
      * split.
        -- intros Hp. pose proof (prefix_cons_inv_1 _ _ _ _ Hp) as ->.
           apply prefix_cons_inv_2, IH in Hp as [? ?]. split; by apply prefix_cons.
        -- intros [H1 H2]. pose proof (prefix_cons_inv_1 _ _ _ _ H1) as ->.
           apply prefix_cons, IH. split; eapply prefix_cons_inv_2; eauto.
    + split.
      * intros ->%prefix_nil_inv. auto using prefix_nil.
      * intros [H1 H2]. destruct l as [|z l]; [apply prefix_nil|].
        pose proof (prefix_cons_inv_1 _ _ _ _ H1). pose proof (prefix_cons_inv_1 _ _ _ _ H2). congruence.
Qed.

Lemma split_all_ok (paths : list string) (sep : string) :
  sep ≠ "" → split_all paths sep = Ok (map (split_go sep 0) paths).
Proof.
  intros Hsep. induction paths as [|p paths IH]; simpl; [done|].
  unfold str_split. destruct (String.eqb_spec sep "") as [?|_]; [done|].
  simpl. by rewrite IH.
Qed.

Lemma zip_star_tuples_nonempty (ls : list (list string)) :
  Forall (λ t, t ≠ []) (zip_star ls).
Proof.
  induction ls as [|l ls IH]; simpl; [constructor|].
  destruct ls as [|l' ls].
  - induction l; simpl; constructor; auto.
  - clear IH. generalize (zip_star (l' :: ls)). induction l as [|x l IHl]; intros [|t T]; simpl; constructor; auto.
Qed.

Lemma check_cons (x : string) (t : list string) :
  t ≠ [] →
  check_all_iterable_values_equal (x :: t)
  = check_all_iterable_values_equal t && String.eqb (hd "" t) x.
Proof.
  destruct t as [|y t]; [done|]. intros _. simpl.
  destruct (String.eqb_spec y x) as [->|Hne].
  - rewrite andb_true_r. done.
  - simpl. rewrite andb_false_r. done.
Qed.

Lemma common_components_single (c : list string) : common_components [c] = c.
Proof.
  unfold common_components. simpl. induction c as [|x c IH]; simpl; [done|].
  by rewrite IH.
Qed.

Lemma common_components_cons (c : list string) (ls : list (list string)) :
  ls ≠ [] →
  common_components (c :: ls) = longest_common_prefix c (common_components ls).
Proof.
  intros Hls. unfold common_components.
  assert (zip_star (c :: ls) = zip_with cons c (zip_star ls)) as ->.
  { destruct ls; [done|reflexivity]. }
  pose proof (zip_star_tuples_nonempty ls) as Hne.
  revert Hne. generalize (zip_star ls). clear Hls ls.
  induction c as [|x c IH]; intros [|t T] Hne; simpl; try done.
  apply Forall_cons in Hne as [Ht HT].
  change (forallb (λ v, String.eqb v x) t) with (check_all_iterable_values_equal (x :: t)).
  rewrite check_cons by done.
  destruct (check_all_iterable_values_equal t); simpl; [|done].
  rewrite String.eqb_sym.
  destruct (String.eqb x (hd "" t)); simpl; [|done].
  by rewrite IH.
Qed.

Lemma common_components_spec (ls : list (list string)) (l : list string) :
  ls ≠ [] →
  l `prefix_of` common_components ls ↔ ∀ c, c ∈ ls → l `prefix_of` c.
Proof.
  induction ls as [|c ls IH]; [done|]. intros _.
  destruct ls as [|c' ls].
  - rewrite common_components_single. split.
    + intros Hp c0 ->%list_elem_of_singleton. done.
    + intros Hall. apply Hall. by left.
  - rewrite common_components_cons by done.
    rewrite longest_common_prefix_spec, IH by done. split.
    + intros [Hc Hrest] c0 [->|Hin]%elem_of_cons; auto.
    + intros Hall. split; [apply Hall; by left|]. intros c0 Hin. apply Hall. by right.
Qed.

(** ** The common root directory *)

Section CommonRoot.
Context `{Os}.

(** C6. For a non-empty list of paths and a non-empty separator,
    [get_common_root_directory] returns the longest list of leading
    components shared by all the paths, joined with the separator, and
    [None] when that string is empty; with exactly one input path
    [create_zip] takes the path's parent directory and does not call it. *)
Theorem common_root_directory_longest_prefix (paths : list string) (sep : string) :
  paths ≠ [] → sep ≠ "" →
  ∃ common : list string,
    (∀ l, l `prefix_of` common ↔ ∀ p, p ∈ paths → l `prefix_of` split_go sep 0 p)
    ∧ get_common_root_directory paths sep
      = Ok (if String.eqb (str_join sep common) ""
            then None else Some (str_join sep common))
    ∧ (length paths = 1 →
       ∀ path, common_root_directory_of paths path sep = Ok (Some (path_dirname path)))
    ∧ (length paths ≠ 1 →
       ∀ path, common_root_directory_of paths path sep
               = get_common_root_directory paths sep).
Proof.
  intros Hpaths Hsep.
  exists (common_components (map (split_go sep 0) paths)).
  split; [|split; [|split]].
  - intros l. rewrite common_components_spec by (by destruct paths).
    split.
    + intros Hall p Hp. apply Hall, list_elem_of_fmap. eauto.
    + intros Hall c (p & -> & Hp)%list_elem_of_fmap. auto.
  - unfold get_common_root_directory. rewrite split_all_ok by done. simpl.
    by destruct (String.eqb _ "").
  - intros Hlen path. unfold common_root_directory_of. by rewrite Hlen.
  - intros Hlen path. unfold common_root_directory_of.
    by destruct (Nat.eqb_spec (length paths) 1).
Qed.
End CommonRoot.

Lemma common_root_directory_longest_prefix_witness :
  ∃ common : list string,
    (∀ l, l `prefix_of` common
          ↔ ∀ p, p ∈ ["/a/b/x.txt"; "/a/b/y"; "/a/c"] → l `prefix_of` split_go "/" 0 p)
    ∧ get_common_root_directory ["/a/b/x.txt"; "/a/b/y"; "/a/c"] "/"
      = Ok (if String.eqb (str_join "/" common) ""
            then None else Some (str_join "/" common))
    ∧ (length ["/a/b/x.txt"; "/a/b/y"; "/a/c"] = 1 →
       ∀ path, @common_root_directory_of linux ["/a/b/x.txt"; "/a/b/y"; "/a/c"] path "/"
               = Ok (Some (@path_dirname linux path)))
    ∧ (length ["/a/b/x.txt"; "/a/b/y"; "/a/c"] ≠ 1 →
       ∀ path, @common_root_directory_of linux ["/a/b/x.txt"; "/a/b/y"; "/a/c"] path "/"
               = get_common_root_directory ["/a/b/x.txt"; "/a/b/y"; "/a/c"] "/").
Proof.
  apply (@common_root_directory_longest_prefix linux ["/a/b/x.txt"; "/a/b/y"; "/a/c"] "/");
    discriminate.
Defined.

(** ** Relative names and stored names *)

Module relative_name_facts.
Import posixpath posix_facts component_facts.

Lemma filter_nonempty_id (cs : list string) :
  Forall (λ c, c ≠ "") cs → filter (λ x, x ≠ "") cs = cs.
Proof.
  induction cs as [|c cs IH]; [done|]. intros [Hc Hcs]%Forall_cons.
  rewrite filter_cons_True by done. by rewrite IH.
Qed.

Lemma parts_absolute_path (cwd : string) (cs : list string) :
  Forall clean_name cs → parts cwd (absolute_path cs) = cs.
Proof.
  intros Hcs. unfold parts, abspath, isabs.
  rewrite (proj1 (absolute_path_slashes cs Hcs)), normpath_absolute by done.
  rewrite split_go_absolute_path by done.
  destruct cs as [|c cs]; [done|].
  rewrite filter_cons_False by (intros H; by apply H).
  apply filter_nonempty_id. eapply Forall_impl; [done|]. by intros x (? & _).
Qed.






Lemma str_join_snoc (cs : list string) (c : string) :
  str_join "/" (cs ++ [c])
  = if cs is [] then c else str_join "/" cs +:+ "/" +:+ c.
Proof.
  induction cs as [|c' cs IH]; [done|]. destruct cs as [|c'' cs]; [done|].
  change (str_join "/" ((c' :: c'' :: cs) ++ [c]))
    with (c' +:+ "/" +:+ str_join "/" ((c'' :: cs) ++ [c])).
  rewrite IH, str_join_cons. by rewrite !app_assoc_str.
Qed.




(** *** The name the archive stores *)



Section Stored.
Context (system : string) (xpc : option string) (cwd : string).
Let host : Os := posix_host system xpc cwd.



End Stored.
End relative_name_facts.

Section RelativeNames.
Context {host : Os}.

End RelativeNames.



(** The names of that file, and of two more without root and without
    flattening. *)
Example recorded_and_stored_names :
  @rel_path_of linux "/a/b/x.txt" (Some "/a") true = Ok "a/b/x.txt"
  ∧ @arcname_of linux "/a/b/x.txt" (Some "/a") true = Ok "a/b/x.txt"
  ∧ @rel_path_of linux "/a/b/x.txt" None false = Ok "a/b/x.txt"
  ∧ @arcname_of linux "/a/b/x.txt" None false = Ok "/a/b/x.txt"
  ∧ @stored_name linux "/a/b/x.txt" false = Ok "a/b/x.txt".
Proof. each_computed. Qed.


(** ** The safe output path *)

Section SafePathLoop.
Context {host : Os} {hashlib : Hashlib}.

(** The loop returns the first path of its sequence of attempts at which
    there is no file, as soon as the fuel reaches that far. *)
Lemma get_safe_file_path_loop_first_free (fs : node) (noext : string)
    (attempt : nat → string) (k : nat) :
  (∀ i, attempt (S i)
        = path_join (path_dirname (attempt i))
            (noext +:+ "_" +:+ str_of_nat (S (S i)) +:+ snd (path_splitext (attempt i)))) →
  isfile fs (attempt k) = false →
  ∀ fuel j,
    j ≤ k → k - j < fuel →
    (∀ i, j ≤ i < k → isfile fs (attempt i) = true) →
    get_safe_file_path_loop fuel fs noext (S (S j)) (attempt j) = Some (attempt k).
Proof.
  intros Hstep Hfree. induction fuel as [|fuel IH]; intros j Hjk Hfuel Htaken; [lia|].
  cbn [get_safe_file_path_loop]. destruct (decide (j = k)) as [->|Hne].
  - by rewrite Hfree.
  - rewrite Htaken by lia. rewrite <- Hstep. apply IH; [lia..|].
    intros i Hi. apply Htaken. lia.
Qed.
End SafePathLoop.

Module safe_path_facts.
Import posixpath posix_facts.

Lemma splitext_parts (p : string) : fst (splitext p) +:+ snd (splitext p) = p.
Proof.
  unfold splitext. destruct (rsplit_sep_parts p) as [Hp _].
  destruct (rsplit_sep p) as [head name]. cbn [fst snd] in Hp.
  destruct (rsplit_dot_parts name) as [Hn _].
  destruct (rsplit_dot name) as [stem ext]. cbn [fst snd] in Hn.
  destruct (negb (String.eqb ext "") && negb (all_dots stem)); cbn [fst snd].
  - by rewrite app_assoc_str, Hn.
  - apply app_empty_r.
Qed.

Lemma basename_of_name (name : string) : no_sep name → basename name = name.
Proof. intros Hn. unfold basename. by rewrite rsplit_sep_no_sep. Qed.

(** The file name of a candidate. *)
Lemma candidate_name_facts (file_path : string) (k : nat) :
  let name := fst (splitext (basename file_path)) +:+ "_" +:+ str_of_nat k
              +:+ snd (splitext file_path) in
  no_sep name ∧ ext_of name = snd (splitext file_path).
Proof.
  pose proof (basename_no_sep file_path) as Hbase.
  pose proof (splitext_parts (basename file_path)) as Hparts.
  assert (snd (splitext file_path) = snd (splitext (basename file_path))) as Hext.
  { by rewrite !splitext_ext, (basename_of_name (basename file_path)). }
  rewrite Hext.
  rewrite <- Hparts, contains_char_app in Hbase. apply orb_false_iff in Hbase as [H1 H2].
  assert (no_sep ("_" +:+ str_of_nat k)) as Hs1.
  { rewrite contains_char_app, str_of_nat_no_char by done. done. }
  assert (no_dot ("_" +:+ str_of_nat k)) as Hs2.
  { rewrite contains_char_app, str_of_nat_no_char by done. done. }
  cbn zeta. split.
  - rewrite !contains_char_app, H1, H2, str_of_nat_no_char by done. done.
  - replace (fst (splitext (basename file_path)) +:+ "_" +:+ str_of_nat k
             +:+ snd (splitext (basename file_path)))
      with (fst (splitext (basename file_path)) +:+ ("_" +:+ str_of_nat k)
            +:+ snd (splitext (basename file_path)))
      by (by rewrite (app_assoc_str "_")).
    rewrite ext_of_suffixed; try done.
    + by rewrite splitext_ext, (basename_of_name (basename file_path))
        by apply basename_no_sep.
    + apply basename_no_sep.
Qed.

(** Each candidate is made from the one before it as the loop makes it. *)
Lemma safe_path_candidate_step (file_path : string) (i : nat) :
  safe_path_candidate file_path (S i)
  = join (dirname (safe_path_candidate file_path i))
      (fst (splitext (basename file_path)) +:+ "_" +:+ str_of_nat (S (S i))
       +:+ snd (splitext (safe_path_candidate file_path i))).
Proof.
  destruct i as [|i]; [done|]. cbn [safe_path_candidate].
  destruct (candidate_name_facts file_path (S (S i))) as [Hsep Hext].
  rewrite dirname_join by (done || apply dirname_is_shaped).
  by rewrite (splitext_ext (join _ _)), basename_join, Hext.
Qed.
End safe_path_facts.

(** C9. On a POSIX host [get_safe_file_path] returns the first path, among
    the requested one and the ones with [_2], [_3], ... before the
    extension, at which no file exists: the requested path itself when no
    file is there. It depends on nothing but which of these paths are files,
    and any fuel beyond the number of paths taken suffices. *)
Theorem get_safe_file_path_first_free (system : string) (xpc : option string)
    (cwd : string) (fs : node) (file_path : string) (k fuel : nat) :
  (∀ i, i < k →
     @isfile (posix_host system xpc cwd) fs (safe_path_candidate file_path i) = true) →
  @isfile (posix_host system xpc cwd) fs (safe_path_candidate file_path k) = false →
  k < fuel →
  @get_safe_file_path (posix_host system xpc cwd) fuel fs file_path
  = Some (safe_path_candidate file_path k).
Proof.
  intros Htaken Hfree Hfuel. unfold get_safe_file_path.
  apply (get_safe_file_path_loop_first_free (host := posix_host system xpc cwd) fs _
           (safe_path_candidate file_path) k); try done; try lia.
  - intros i. apply safe_path_facts.safe_path_candidate_step.
  - intros i Hi. apply Htaken. lia.
Qed.

Lemma get_safe_file_path_first_free_witness :
  @get_safe_file_path (posix_host "Linux" None "/w") 3 with_outputs "out.zip"
  = Some "out_3.zip".
Proof.
  apply (get_safe_file_path_first_free "Linux" None "/w" with_outputs "out.zip" 2 3).
  - intros [|[|i]] Hi; [reflexivity|reflexivity|lia].
  - reflexivity.
  - lia.
Defined.

(** The examples of the specification: nothing at [out.zip]; [out.zip]
    there; [out.zip] and [out_2.zip] there. *)
Example safe_output_path_examples :
  @get_safe_file_path (posix_host "Linux" None "/w") 1 (Dir true [("w", Dir true [])])
    "out.zip" = Some "out.zip"
  ∧ @get_safe_file_path (posix_host "Linux" None "/w") 2
      (Dir true [("w", Dir true [("out.zip", File true hi)])]) "out.zip"
    = Some "out_2.zip"
  ∧ @get_safe_file_path linux 3 with_outputs "/w/out.zip" = Some "/w/out_3.zip".
Proof. each_computed. Qed.

(** ** Enumeration *)

(** Induction on trees, with the hypothesis for every entry of a
    directory. *)
Lemma node_ind_entries (P : node → Prop) :
  (∀ readable content, P (File readable content)) →
  P Special →
  (∀ listable entries, Forall (λ e, P (snd e)) entries → P (Dir listable entries)) →
  ∀ n, P n.
Proof.
  intros Hfile Hspecial Hdir. fix IH 1. intros [readable content| |listable entries].
  - apply Hfile.
  - apply Hspecial.
  - apply Hdir. revert entries. fix IHentries 1. intros [|[name child] entries].
    + constructor.
    + constructor; [apply IH|apply IHentries].
Qed.

Lemma leads_to_nonempty (n : node) (names : list string) :
  leads_to n names → names ≠ [].
Proof. by intros []. Qed.

Lemma sorted_elem_of (l : list string) (x : string) : x ∈ sorted l ↔ x ∈ l.
Proof. unfold sorted. by rewrite merge_sort_Permutation. Qed.

Section Enumeration.
Context {host : Os}.

Lemma keep_filename_spec (igd : bool) (name : string) :
  keep_filename igd name = true ↔ (igd = true → first_is_dot name = false).
Proof.
  unfold keep_filename. destruct igd, (first_is_dot name); simpl; split; try done.
  intros Hf. by specialize (Hf eq_refl).
Qed.

Lemma in_exclude_folders_spec (name : string) :
  in_exclude_folders name = false ↔ name ∉ EXCLUDE_FOLDERS.
Proof.
  unfold in_exclude_folders, EXCLUDE_FOLDERS. simpl.
  rewrite !not_elem_of_cons, !orb_false_iff, !String.eqb_neq.
  split; [intros (? & ? & _)|intros (? & ? & _)]; repeat split; try done.
  apply not_elem_of_nil.
Qed.

Lemma keep_dir_spec (igd igv : bool) (name : string) :
  keep_dir igd igv name = true
  ↔ (igd = true → first_is_dot name = false)
    ∧ (igv = true → name ∉ EXCLUDE_FOLDERS).
Proof.
  unfold keep_dir. rewrite andb_true_iff.
  change (if igd then negb (first_is_dot name) else true) with (keep_filename igd name).
  rewrite keep_filename_spec, <- in_exclude_folders_spec.
  destruct igv, (in_exclude_folders name); simpl; intuition congruence.
Qed.

(** The files found below the sub-directories that stay in [dirs]. *)
Lemma walk_dirs_files (descend : string → node → result (list string * nat))
    (keep : string → bool) (entries : list (string * node))
    (files : list string) (size : nat) (p : string) :
  walk_dirs descend keep entries = Ok (files, size) →
  p ∈ files
  ↔ ∃ name child sub_files sub_size,
      (name, child) ∈ entries ∧ is_dir_node child = true ∧ keep name = true
      ∧ descend name child = Ok (sub_files, sub_size) ∧ p ∈ sub_files.
Proof.
  revert files size. induction entries as [|[name child] entries IH]; intros files size Hrun.
  - injection Hrun as <- <-. split; [by intros ?%elem_of_nil|].
    by intros (? & ? & ? & ? & ?%elem_of_nil & _).
  - cbn [walk_dirs] in Hrun.
    destruct (is_dir_node child && keep name) eqn:Hcond.
    + apply andb_true_iff in Hcond as [Hdir Hkeep].
      destruct (descend name child) as [[f1 s1]|e] eqn:Hdescend; [|done].
      cbn [mbind result_bind] in Hrun.
      destruct (walk_dirs descend keep entries) as [[f2 s2]|e] eqn:Hrest; [|done].
      cbn [mbind result_bind] in Hrun. injection Hrun as <- <-.
      rewrite elem_of_app, (IH f2 s2 eq_refl). split.
      * intros [Hp|(nm & ch & sf & ss & Hin & ?)].
        -- exists name, child, f1, s1. repeat split; try done. by left.
        -- exists nm, ch, sf, ss. repeat split; try done; [by right|tauto..].
      * intros (nm & ch & sf & ss & [[= -> ->]|Hin]%elem_of_cons & Hd & Hk & Hdesc & Hp).
        -- left. rewrite Hdescend in Hdesc. by injection Hdesc as <- <-.
        -- right. by exists nm, ch, sf, ss.
    + rewrite (IH files size Hrun). split.
      * intros (nm & ch & sf & ss & Hin & ?).
        exists nm, ch, sf, ss. split; [by right|done].
      * intros (nm & ch & sf & ss & [[= -> ->]|Hin]%elem_of_cons & Hd & Hk & Hdesc & Hp).
        -- rewrite Hd, Hk in Hcond. done.
        -- by exists nm, ch, sf, ss.
Qed.

(** A finished pass has walked every sub-directory that stays in [dirs]. *)
Lemma walk_dirs_descends (descend : string → node → result (list string * nat))
    (keep : string → bool) (entries : list (string * node))
    (files : list string) (size : nat) (name : string) (child : node) :
  walk_dirs descend keep entries = Ok (files, size) →
  (name, child) ∈ entries → is_dir_node child = true → keep name = true →
  ∃ sub_files sub_size, descend name child = Ok (sub_files, sub_size).
Proof.
  intros Hrun Hin Hdir Hkeep. revert files size Hrun.
  induction entries as [|[nm ch] entries IH]; intros files size Hrun;
    [by apply elem_of_nil in Hin|].
  cbn [walk_dirs] in Hrun. apply elem_of_cons in Hin as [[= <- <-]|Hin].
  - rewrite Hdir, Hkeep in Hrun. simpl in Hrun.
    destruct (descend name child) as [[f s]|]; [eauto|done].
  - destruct (is_dir_node ch && keep nm).
    + destruct (descend nm ch) as [[? ?]|]; [|done]. cbn [mbind result_bind] in Hrun.
      destruct (walk_dirs descend keep entries) as [[? ?]|]; [|done]. by eapply IH.
    + by eapply IH.
Qed.

Lemma walk_dir_unfold (igd igv : bool) (root : string) (entries : list (string * node)) :
  walk igd igv root (Dir true entries)
  = if igd && existsb (fun e => String.eqb (fst e) "") entries
    then Raise IndexError
    else
      '(sub_files, sub_size) ←
        walk_dirs (fun name child => walk igd igv (path_join root name) child)
          (keep_dir igd igv) entries;
      Ok (map (fun e => path_join root (fst e))
            (List.filter (fun e => keep_filename igd (fst e))
               (List.filter (fun e => negb (is_dir_node (snd e))) entries))
          ++ sub_files,
          list_sum
            (map (fun e => getsize (snd e))
               (List.filter (fun e => keep_filename igd (fst e))
                  (List.filter (fun e => negb (is_dir_node (snd e))) entries)))
          + sub_size).
Proof. reflexivity. Qed.

(** The files [walk] collects below a directory are the entries that are
    not directories and that are reached without passing a name the flags
    exclude. *)
Lemma walk_files (igd igv : bool) (n : node) :
  ∀ (root : string) (files : list string) (size : nat) (p : string),
    walk igd igv root n = Ok (files, size) →
    p ∈ files
    ↔ ∃ names,
        leads_to n names ∧ p = fold_left path_join names root
        ∧ (igd = true → Forall (λ name, first_is_dot name = false) names)
        ∧ (igv = true → Forall (λ name, name ∉ EXCLUDE_FOLDERS) (removelast names)).
Proof.
  induction n as [readable content| |listable entries IH] using node_ind_entries;
    intros root files size p Hrun; try done.
  destruct listable; [|done]. rewrite walk_dir_unfold in Hrun.
  destruct (igd && existsb _ entries); [done|].
  destruct (walk_dirs _ _ entries) as [[sub_files sub_size]|e] eqn:Hsub; [|done].
  cbn [mbind result_bind] in Hrun. injection Hrun as <- <-.
  rewrite elem_of_app, (walk_dirs_files _ _ _ _ _ p Hsub).
  rewrite Forall_forall in IH. split.
  - intros [Hhere|(name & child & sf & ss & Hin & Hdir & Hkeep & Hwalk & Hp)].
    + apply list_elem_of_fmap in Hhere as ([name child] & -> & Hin).
      apply list_elem_of_In, filter_In in Hin as [Hin Hkeep].
      apply filter_In in Hin as [Hin Hnondir]. simpl in *.
      apply list_elem_of_In in Hin. apply negb_true_iff in Hnondir.
      exists [name]. split; [by eapply leads_to_file|]. split; [done|].
      rewrite keep_filename_spec in Hkeep. split.
      * intros Hd. constructor; [by apply Hkeep|constructor].
      * intros _. constructor.
    + pose proof (IH (name, child) Hin (path_join root name) sf ss p Hwalk) as Hiff.
      apply Hiff in Hp as (names & Hleads & -> & Hdot & Hex).
      rewrite keep_dir_spec in Hkeep. destruct Hkeep as [Hkd Hke].
      exists (name :: names). split; [by eapply leads_to_dir|]. split; [done|]. split.
      * intros Hd. constructor; auto.
      * intros Hv. pose proof (leads_to_nonempty _ _ Hleads).
        destruct names as [|name' names]; [done|]. simpl. constructor; auto.
  - intros (names & Hleads & -> & Hdot & Hex).
    inversion Hleads as [l es name child Hin Hnondir|l es name child names' Hin Hdir Hsubleads];
      subst.
    + left. apply list_elem_of_fmap. exists (name, child). split; [done|].
      apply list_elem_of_In, filter_In. split.
      * apply filter_In. split; [by apply list_elem_of_In|]. simpl. by rewrite Hnondir.
      * simpl. apply keep_filename_spec. intros Hd. specialize (Hdot Hd).
        by apply Forall_cons in Hdot as [? _].
    + right. pose proof (leads_to_nonempty _ _ Hsubleads) as Hne.
      assert (keep_dir igd igv name = true) as Hkeep.
      { apply keep_dir_spec. split.
        - intros Hd. specialize (Hdot Hd). by apply Forall_cons in Hdot as [? _].
        - intros Hv. specialize (Hex Hv). destruct names' as [|name' names']; [done|].
          simpl in Hex. by apply Forall_cons in Hex as [? _]. }
      destruct (walk_dirs_descends _ _ _ _ _ name child Hsub Hin Hdir Hkeep)
        as (sf & ss & Hwalk).
      exists name, child, sf, ss. repeat split; try done.
      apply (IH (name, child) Hin _ _ _ _ Hwalk). exists names'.
      split; [done|]. split; [done|]. split.
      * intros Hd. specialize (Hdot Hd). by apply Forall_cons in Hdot as [_ ?].
      * intros Hv. specialize (Hex Hv). destruct names' as [|name' names']; [done|].
        simpl in Hex. by apply Forall_cons in Hex as [_ ?].
Qed.
Lemma walk_paths_files (fs : node) (igd igv : bool) (paths files : list string)
    (size : nat) (p : string) :
  walk_paths fs igd igv paths = Ok (files, size) →
  p ∈ files
  ↔ ∃ path n sub_files sub_size,
      path ∈ paths ∧ path_lookup fs path = Some n
      ∧ walk igd igv path n = Ok (sub_files, sub_size) ∧ p ∈ sub_files.
Proof.
  revert files size. induction paths as [|path paths IH]; intros files size Hrun.
  - injection Hrun as <- <-. split; [by intros ?%elem_of_nil|].
    by intros (? & ? & ? & ? & ?%elem_of_nil & _).
  - cbn [walk_paths] in Hrun.
    destruct (path_lookup fs path) as [n|] eqn:Hlookup; [|done].
    destruct (walk igd igv path n) as [[f1 s1]|e] eqn:Hwalk; [|done].
    cbn [mbind result_bind] in Hrun.
    destruct (walk_paths fs igd igv paths) as [[f2 s2]|e] eqn:Hrest; [|done].
    cbn [mbind result_bind] in Hrun. injection Hrun as <- <-.
    rewrite elem_of_app, (IH f2 s2 eq_refl). split.
    + intros [Hp|(pa & m & sf & ss & Hin & ?)].
      * exists path, n, f1, s1. repeat split; try done. by left.
      * exists pa, m, sf, ss. split; [by right|done].
    + intros (pa & m & sf & ss & [->|Hin]%elem_of_cons & Hl & Hw & Hp).
      * left. rewrite Hlookup in Hl. injection Hl as <-. rewrite Hwalk in Hw.
        by injection Hw as <- <-.
      * right. by exists pa, m, sf, ss.
Qed.

(** C8. The files [get_file_paths_and_size] returns are the entries that
    are not directories and are found below the given paths; with
    [ignore_dotfiles] only those reached without any name that starts with
    a dot, be it the file's or a directory's on the way; with
    [ignore_windows_volume_folders] only those reached without passing a
    directory of [EXCLUDE_FOLDERS]; with both flags off, all of them. *)
Theorem enumeration_respects_exclusions (fs : node) (paths : list string)
    (ignore_dotfiles ignore_windows_volume_folders : bool)
    (files : list string) (size : nat) :
  get_file_paths_and_size fs paths ignore_dotfiles ignore_windows_volume_folders
  = Ok (files, size) →
  ∀ p, p ∈ files
       ↔ ∃ path n names,
           path ∈ paths ∧ path_lookup fs path = Some n ∧ leads_to n names
           ∧ p = fold_left path_join names path
           ∧ (ignore_dotfiles = true →
              Forall (λ name, first_is_dot name = false) names)
           ∧ (ignore_windows_volume_folders = true →
              Forall (λ name, name ∉ EXCLUDE_FOLDERS) (removelast names)).
Proof.
  intros Hrun p. unfold get_file_paths_and_size in Hrun.
  destruct (walk_paths fs _ _ (sorted paths)) as [[all size']|e] eqn:Hwalk; [|done].
  cbn [mbind result_bind] in Hrun. injection Hrun as <- <-.
  rewrite sorted_elem_of, (walk_paths_files _ _ _ _ _ _ p Hwalk). split.
  - intros (path & n & sf & ss & Hin & Hlookup & Hw & Hp).
    apply (proj1 (sorted_elem_of _ _)) in Hin.
    apply (walk_files _ _ _ _ _ _ p Hw) in Hp as (names & Hleads & Hp & Hdot & Hex).
    by exists path, n, names.
  - intros (path & n & names & Hin & Hlookup & Hrest).
    apply (proj2 (sorted_elem_of _ _)) in Hin.
    assert (∃ sf ss, walk ignore_dotfiles ignore_windows_volume_folders path n
                     = Ok (sf, ss)) as (sf & ss & Hw).
    { clear -Hwalk Hin Hlookup. revert all size' Hwalk.
      induction (sorted paths) as [|pa l IH]; intros all size' Hwalk;
        [by apply elem_of_nil in Hin|].
      cbn [walk_paths] in Hwalk. apply elem_of_cons in Hin as [<-|Hin].
      - rewrite Hlookup in Hwalk.
        destruct (walk _ _ path n) as [[? ?]|]; [eauto|done].
      - destruct (path_lookup fs pa) as [m|]; [|done].
        destruct (walk _ _ pa m) as [[? ?]|]; [|done]. cbn [mbind result_bind] in Hwalk.
        destruct (walk_paths fs _ _ l) as [[? ?]|]; [|done]. by eapply IH. }
    exists path, n, sf, ss. repeat split; try done.
    apply (walk_files _ _ _ _ _ _ p Hw). by exists names.
Qed.
End Enumeration.

Lemma enumeration_respects_exclusions_witness :
  "/d/.git/config" ∈ ["/d/keep.txt"; "/d/sub/deep.txt"]
  ↔ ∃ path n names,
      path ∈ ["/d"] ∧ @path_lookup linux with_hidden path = Some n
      ∧ leads_to n names
      ∧ "/d/.git/config" = fold_left (@path_join linux) names path
      ∧ (true = true → Forall (λ name, first_is_dot name = false) names)
      ∧ (true = true → Forall (λ name, name ∉ EXCLUDE_FOLDERS) (removelast names)).
Proof.
  apply (@enumeration_respects_exclusions linux with_hidden ["/d"] true true
           ["/d/keep.txt"; "/d/sub/deep.txt"] 4).
  compute_done.
Defined.

(** The same tree with the flags one by one and with both off. *)
Example enumeration_flags :
  @get_file_paths_and_size linux with_hidden ["/d"] true false
  = Ok (["/d/$RECYCLE.BIN/junk"; "/d/keep.txt"; "/d/sub/System Volume Information/s";
         "/d/sub/deep.txt"], 9)
  ∧ @get_file_paths_and_size linux with_hidden ["/d"] false true
    = Ok (["/d/.git/config"; "/d/.profile"; "/d/keep.txt"; "/d/sub/deep.txt"], 10)
  ∧ @get_file_paths_and_size linux with_hidden ["/d"] false false
    = Ok (["/d/$RECYCLE.BIN/junk"; "/d/.git/config"; "/d/.profile"; "/d/keep.txt";
           "/d/sub/System Volume Information/s"; "/d/sub/deep.txt"], 15).
Proof. each_computed. Qed.

(** ** Hashing *)

Section Hashing.
Context `{Os} `{Hashlib}.

Lemma hash_loops_agree (n fuel : nat) (h : hash_object) (data : bytes) :
  hash_file_in_zip_loop n fuel h data = hash_file_at_path_loop n fuel h data.
Proof.
  revert h data. induction fuel as [|fuel IH]; intros h data; simpl; [done|].
  destruct (take n data); [done|]. apply IH.
Qed.

Lemma hash_file_at_path_loop_update `{!HashlibStreaming H0}
    (n fuel : nat) (h : hash_object) (data : bytes) :
  0 < n → length data < fuel →
  hash_file_at_path_loop n fuel h data = update h data.
Proof.
  intros Hn. revert h data. induction fuel as [|fuel IH]; intros h data Hlen; [lia|].
  simpl. destruct data as [|b data].
  - rewrite take_nil. by rewrite update_nil.
  - destruct n as [|n]; [lia|]. simpl.
    rewrite IH.
    + rewrite update_app. simpl. by rewrite take_drop.
    + rewrite length_drop. simpl in Hlen. lia.
Qed.

Lemma hash_file_at_path_content (fs : node) (file_path algorithm : string)
    (content : bytes) :
  open_rb fs file_path = Ok content →
  hash_file_at_path fs file_path algorithm = Ok (content_digest algorithm content).
Proof. intros Hopen. unfold hash_file_at_path. by rewrite Hopen. Qed.

Lemma hash_file_in_zip_content (zip_handler : archive) (name algorithm : string)
    (content : bytes) :
  zip_open zip_handler name = Ok content →
  hash_file_in_zip zip_handler name algorithm = Ok (content_digest algorithm content).
Proof.
  intros Hopen. unfold hash_file_in_zip. rewrite Hopen.
  unfold content_digest, mbind, result_bind. cbv beta iota zeta.
  do 2 f_equal; apply hash_loops_agree.
Qed.

Lemma content_digest_update `{!HashlibStreaming H0} (algorithm : string) (content : bytes) :
  content_digest algorithm content = hexdigest (update (hashlib_new algorithm) content).
Proof. unfold content_digest. by rewrite hash_file_at_path_loop_update by lia. Qed.

Lemma Ok_inj {A} (a b : A) : Ok a = Ok b → a = b.
Proof. by intros [=]. Qed.

(** C4. A plain file and an archive entry with the same bytes get the same
    digest string from [hash_file_at_path] and [hash_file_in_zip]: both
    feed the bytes in 64 KiB blocks to the hash object of the algorithm
    (SHA-1 by default), and the digest is that of the bytes fed at once. *)
Theorem hash_file_same_digest `{!HashlibStreaming H0}
    (fs : node) (zip_handler : archive) (file_path file_path_in_zip : string)
    (content : bytes) (algorithm : string) :
  open_rb fs file_path = Ok content →
  zip_open zip_handler file_path_in_zip = Ok content →
  hash_file_at_path fs file_path algorithm
  = Ok (hexdigest (update (hashlib_new algorithm) content))
  ∧ hash_file_in_zip zip_handler file_path_in_zip algorithm
    = hash_file_at_path fs file_path algorithm.
Proof.
  intros Hfile Hzip.
  rewrite (hash_file_at_path_content _ _ _ _ Hfile).
  rewrite (hash_file_in_zip_content _ _ _ _ Hzip).
  by rewrite content_digest_update.
Qed.
End Hashing.

#[global] Instance hashlib_sha1_streaming : HashlibStreaming hashlib_sha1.
Proof.
  split; simpl.
  - intros h. apply app_nil_r.
  - intros h a b. symmetry. apply app_assoc.
Qed.

Lemma hash_file_same_digest_witness :
  @hash_file_at_path linux hashlib_sha1 two_copies "/a/x.txt" "sha1"
  = Ok "c22b5f9178342609428d6f51b2c5af4c0bde6a42"
  ∧ hash_file_in_zip [ZipEntry "x.txt" hi] "x.txt" "sha1"
    = @hash_file_at_path linux hashlib_sha1 two_copies "/a/x.txt" "sha1".
Proof.
  apply (@hash_file_same_digest linux hashlib_sha1 hashlib_sha1_streaming two_copies
           [ZipEntry "x.txt" hi] "/a/x.txt" "x.txt" hi "sha1"); reflexivity.
Defined.

(** ** Hash indices *)

(** Appending to the list of a digest, creating the list when the digest is
    new: the two statements both index loops share. *)
Lemma lookup_index_append (d : gmap string (list string)) (k v k' : string) :
  alter (fun l => l ++ [v]) k
    (match d !! k with None => <[k := []]> d | Some _ => d end) !! k'
  = if decide (k = k') then Some (default [] (d !! k) ++ [v]) else d !! k'.
Proof.
  rewrite lookup_alter. destruct (decide (k = k')) as [->|Hne].
  - destruct (d !! k') as [l|] eqn:Hk; simpl.
    + by rewrite Hk.
    + by rewrite lookup_insert_eq.
  - destruct (d !! k) eqn:Hk; [done|]. by rewrite lookup_insert_ne.
Qed.

Lemma index_append_grows (d : gmap string (list string)) (k v k' : string) (l0 : list string) :
  d !! k' = Some l0 →
  ∃ l, alter (fun l => l ++ [v]) k
         (match d !! k with None => <[k := []]> d | Some _ => d end) !! k' = Some l
       ∧ l0 `prefix_of` l.
Proof.
  intros Hk'. rewrite lookup_index_append. destruct (decide (k = k')) as [->|Hne].
  - rewrite Hk'. simpl. eexists. split; [done|]. by apply prefix_app_r.
  - eauto.
Qed.

Lemma merge_hash_dict_lookup (a b : gmap string (list string)) (k : string) :
  merge_hash_dict a b !! k
  = match a !! k, b !! k with
    | Some x, Some y => Some (x ++ y)
    | Some x, None => Some x
    | None, y => y
    end.
Proof.
  unfold merge_hash_dict.
  induction b as [|k' v b Hk' Hfold IH] using map_first_key_ind.
  - rewrite map_fold_empty, lookup_empty. by destruct (a !! k).
  - rewrite map_fold_insert_first_key by done.
    destruct (decide (k' = k)) as [->|Hne].
    + rewrite lookup_insert_eq. rewrite Hk' in IH.
      destruct (map_fold _ a b !! k) as [old|] eqn:Hold; rewrite lookup_insert_eq;
        destruct (a !! k); congruence.
    + rewrite (lookup_insert_ne b) by done.
      destruct (map_fold _ a b !! k') as [old|] eqn:Hold;
        by rewrite lookup_insert_ne.
Qed.

Section Indices.
Context `{Os} `{Hashlib}.

Lemma get_hash_dict_from_cons (fs : node) (p : string) (files : list string)
    (root : option string) (flag : bool) (acc : gmap string (list string)) :
  get_hash_dict_from fs (p :: files) root flag acc
  = if isfile fs p
    then hash_value ← hash_file_at_path fs p "sha1";
         rel_path ← rel_path_of p root flag;
         get_hash_dict_from fs files root flag
           (alter (fun paths => paths ++ [rel_path]) hash_value
              (match acc !! hash_value with
               | None => <[hash_value := []]> acc
               | Some _ => acc
               end))
    else Raise (IOError (not_regular_file_message p)).
Proof. cbn [get_hash_dict_from]. by destruct (isfile fs p). Qed.

Lemma get_hash_dict_from_app (fs : node) (pre rest : list string)
    (root : option string) (flag : bool) (acc : gmap string (list string)) :
  get_hash_dict_from fs (pre ++ rest) root flag acc
  = (d ← get_hash_dict_from fs pre root flag acc;
     get_hash_dict_from fs rest root flag d).
Proof.
  revert acc. induction pre as [|p pre IH]; intros acc; [done|].
  rewrite <- app_comm_cons, !get_hash_dict_from_cons.
  destruct (isfile fs p); [|done].
  destruct (hash_file_at_path fs p "sha1") as [hv|e]; [|done].
  destruct (rel_path_of p root flag) as [rel|e]; [|done].
  cbn [mbind result_bind]. apply IH.
Qed.

(** What a finished pass of [get_hash_dict] has recorded: the lists it
    started from have only grown, and every file of the list stands under
    its digest with its relative name. *)
Lemma get_hash_dict_from_records (fs : node) (files : list string)
    (root : option string) (flag : bool) (acc d : gmap string (list string)) :
  get_hash_dict_from fs files root flag acc = Ok d →
  (∀ k l0, acc !! k = Some l0 → ∃ l, d !! k = Some l ∧ l0 `prefix_of` l)
  ∧ (∀ p, p ∈ files →
       ∃ hv rel l, hash_file_at_path fs p "sha1" = Ok hv
                   ∧ rel_path_of p root flag = Ok rel
                   ∧ d !! hv = Some l ∧ rel ∈ l).
Proof.
  revert acc. induction files as [|p files IH]; intros acc Hrun.
  - injection Hrun as <-. split; [eauto|]. intros p Hp. by apply elem_of_nil in Hp.
  - rewrite get_hash_dict_from_cons in Hrun.
    destruct (isfile fs p); [|done].
    destruct (hash_file_at_path fs p "sha1") as [hv|e] eqn:Hhash; [|done].
    destruct (rel_path_of p root flag) as [rel|e] eqn:Hrel; [|done].
    cbn [mbind result_bind] in Hrun. apply IH in Hrun as [Hgrow Hrec].
    split.
    + intros k l0 Hk.
      destruct (index_append_grows acc hv rel k l0 Hk) as (l1 & Hl1 & Hpre1).
      destruct (Hgrow k l1 Hl1) as (l & Hl & Hpre). exists l. split; [done|].
      by etrans.
    + intros q [->|Hq]%elem_of_cons; [|by apply Hrec].
      pose proof (lookup_index_append acc hv rel hv) as Hnew.
      rewrite decide_True in Hnew by done.
      destruct (Hgrow _ _ Hnew) as (l & Hl & Hpre).
      exists hv, rel, l. repeat split; [done..|].
      eapply elem_of_prefix; [|done]. apply elem_of_app. right. by left.
Qed.

End Indices.

(** ** Archives *)

Lemma getinfo_listed (a : archive) (name : string) :
  name ∈ namelist a →
  ∃ e, getinfo a name = Some e ∧ e ∈ a ∧ ze_name e = name.
Proof.
  induction a as [|e a IH]; simpl; [by intros ?%elem_of_nil|].
  intros Hin. destruct (getinfo a name) as [e'|] eqn:Hget.
  - destruct (decide (name ∈ namelist a)) as [Hin'|Hnot].
    + destruct (IH Hin') as (e0 & [= <-] & He0 & Hname).
      exists e'. repeat split; [by right|done].
    + apply elem_of_cons in Hin as [->|Hin]; [|done].
      clear IH. exfalso. apply Hnot. clear Hnot.
      revert e' Hget. induction a as [|e1 a IH]; intros e' Hget; [done|].
      simpl in *. destruct (getinfo a (ze_name e)) as [e2|] eqn:Hget2.
      * right. by eapply IH.
      * destruct (String.eqb_spec (ze_name e1) (ze_name e)) as [->|]; [by left|done].
  - apply elem_of_cons in Hin as [->|Hin].
    + rewrite String.eqb_refl. exists e. repeat split; by left.
    + destruct (IH Hin) as (? & [=] & _).
Qed.

Lemma zip_open_consistent (a : archive) (e : zip_entry) :
  archive_consistent a → e ∈ a → zip_open a (ze_name e) = Ok (ze_data e).
Proof.
  intros Hcons He. unfold zip_open.
  unfold archive_consistent in Hcons. rewrite Forall_forall in Hcons.
  destruct (getinfo_listed a (ze_name e)) as (e' & -> & He' & Hname).
  { apply list_elem_of_fmap. eauto. }
  f_equal. specialize (Hcons e' He'). rewrite Forall_forall in Hcons.
  by apply Hcons.
Qed.

Section Archives.
Context `{Os} `{Hashlib}.

Lemma zip_hash_dict_from_cons (a : archive) (name : string) (listing : list string)
    (acc : gmap string (list string)) (count : nat) :
  zip_hash_dict_from a (name :: listing) (acc, count)
  = (hash_value ← hash_file_in_zip a name "sha1";
     zip_hash_dict_from a listing
       (alter (fun names => names ++ [name]) hash_value
          (match acc !! hash_value with
           | None => <[hash_value := []]> acc
           | Some _ => acc
           end), count + 1)).
Proof. reflexivity. Qed.

(** The pass over the names of an archive finishes, having counted them. *)
Lemma zip_hash_dict_from_finishes (a : archive) (listing : list string)
    (acc : gmap string (list string)) (count : nat) :
  (∀ name, name ∈ listing → name ∈ namelist a) →
  ∃ d, zip_hash_dict_from a listing (acc, count) = Ok (d, count + length listing).
Proof.
  revert acc count. induction listing as [|name listing IH]; intros acc count Hall.
  - exists acc. simpl. by rewrite Nat.add_0_r.
  - rewrite zip_hash_dict_from_cons.
    destruct (getinfo_listed a name) as (e & Hget & _); [apply Hall; by left|].
    unfold hash_file_in_zip at 1, zip_open. rewrite Hget. cbn [mbind result_bind].
    edestruct IH as [d Hd]; [intros n Hn; apply Hall; by right|].
    exists d. rewrite Hd. do 2 f_equal. simpl. lia.
Qed.

Lemma get_zip_hash_dict_finishes (a : archive) :
  ∃ d, get_zip_hash_dict a = Ok (d, length a).
Proof.
  destruct (zip_hash_dict_from_finishes a (namelist a) ∅ 0) as [d Hd]; [done|].
  exists d. unfold get_zip_hash_dict. rewrite Hd. unfold namelist.
  by rewrite length_map.
Qed.

Lemma zip_hash_dict_from_records (a : archive) (listing : list string)
    (acc d : gmap string (list string)) (count count' : nat) :
  zip_hash_dict_from a listing (acc, count) = Ok (d, count') →
  (∀ k l0, acc !! k = Some l0 → ∃ l, d !! k = Some l ∧ l0 `prefix_of` l)
  ∧ (∀ name, name ∈ listing →
       ∃ hv l, hash_file_in_zip a name "sha1" = Ok hv ∧ d !! hv = Some l ∧ name ∈ l).
Proof.
  revert acc count. induction listing as [|name listing IH]; intros acc count Hrun.
  - injection Hrun as <- <-. split; [eauto|]. intros p Hp. by apply elem_of_nil in Hp.
  - rewrite zip_hash_dict_from_cons in Hrun.
    destruct (hash_file_in_zip a name "sha1") as [hv|e] eqn:Hhash; [|done].
    cbn [mbind result_bind] in Hrun. apply IH in Hrun as [Hgrow Hrec].
    split.
    + intros k l0 Hk.
      destruct (index_append_grows acc hv name k l0 Hk) as (l1 & Hl1 & Hpre1).
      destruct (Hgrow k l1 Hl1) as (l & Hl & Hpre). exists l. split; [done|].
      by etrans.
    + intros q [->|Hq]%elem_of_cons; [|by apply Hrec].
      pose proof (lookup_index_append acc hv name hv) as Hnew.
      rewrite decide_True in Hnew by done.
      destruct (Hgrow _ _ Hnew) as (l & Hl & Hpre).
      exists hv, l. repeat split; [done..|].
      eapply elem_of_prefix; [|done]. apply elem_of_app. right. by left.
Qed.

(** What [add_files_to_zip] leaves in the archive: the entries that were
    there, and for every readable file of the list an entry with its bytes
    under the stored form of its [arcname]. *)
Lemma add_files_to_zip_records (fs : node) (file_list : list string)
    (root : option string) (flag : bool) (zh0 zh : archive) :
  add_files_to_zip fs file_list root zh0 flag = Ok zh →
  zh0 `prefix_of` zh
  ∧ (∀ p content, p ∈ file_list → open_rb fs p = Ok content →
       ∃ arcname name, arcname_of p root flag = Ok arcname
                       ∧ stored_name arcname false = Ok name
                       ∧ ZipEntry name content ∈ zh).
Proof.
  revert zh0. induction file_list as [|p files IH]; intros zh0 Hrun.
  - injection Hrun as <-. split; [done|]. intros p c Hp. by apply elem_of_nil in Hp.
  - cbn [add_files_to_zip] in Hrun.
    destruct (arcname_of p root flag) as [arcname|e] eqn:Harc; [|done].
    cbn [mbind result_bind] in Hrun.
    destruct (zip_write fs zh0 p arcname) as [zh1|e] eqn:Hwrite; [|done].
    cbn [mbind result_bind] in Hrun. apply IH in Hrun as [Hpre Hrec].
    assert (zh0 `prefix_of` zh1) as Hpre1.
    { unfold zip_write in Hwrite.
      destruct (path_lookup fs p) as [[| |]|]; try done;
        destruct (stored_name arcname _); try done; cbn [mbind result_bind] in Hwrite;
        try (destruct (open_rb fs p); try done; cbn [mbind result_bind] in Hwrite);
        injection Hwrite as <-; by apply prefix_app_r. }
    split; [by etrans|].
    intros q content [->|Hq]%elem_of_cons Hopen; [|by eapply Hrec].
    exists arcname. unfold zip_write in Hwrite. rewrite Hopen in Hwrite.
    unfold open_rb in Hopen.
    destruct (path_lookup fs p) as [[[|] c| |]|]; try done.
    injection Hopen as ->.
    destruct (stored_name arcname false) as [name|]; [|done].
    cbn [mbind result_bind] in Hwrite. injection Hwrite as <-.
    exists name. repeat split; [done|].
    eapply elem_of_prefix; [|done]. apply elem_of_app. right. by left.
Qed.
End Archives.

(** ** The loop of [create_zip] *)

Section CreateZip.
Context `{Os} `{Hashlib}.

(** One round of the loop, with its two branches read as one. *)
Lemma create_zip_from_cons (fs : node) (inputs : list string) (igd igv flag : bool)
    (sep path : string) (todo : list string)
    (d0 : gmap string (list string)) (n0 : nat) (zh0 : archive) :
  create_zip_from fs inputs igd igv flag sep (path :: todo) (d0, n0, zh0)
  = (root ← common_root_directory_of inputs path sep;
     files ← files_of_input fs igd igv path;
     dict ← get_hash_dict fs files root flag;
     zh ← add_files_to_zip fs files root zh0 flag;
     create_zip_from fs inputs igd igv flag sep todo
       (merge_hash_dict d0 dict, n0 + length files, zh)).
Proof.
  cbn [create_zip_from]. unfold files_of_input.
  destruct (common_root_directory_of inputs path sep) as [root|e]; [|done].
  cbn [mbind result_bind]. destruct (isdir fs path).
  - destruct (get_file_paths_and_size fs [path] igd igv) as [[files size]|e]; done.
  - done.
Qed.

Lemma create_zip_from_records (fs : node) (inputs : list string) (igd igv flag : bool)
    (sep : string) (todo : list string)
    (d0 d : gmap string (list string)) (n0 n : nat) (zh0 zh : archive) :
  create_zip_from fs inputs igd igv flag sep todo (d0, n0, zh0) = Ok (d, n, zh) →
  (∀ k l0, d0 !! k = Some l0 → ∃ l, d !! k = Some l ∧ l0 `prefix_of` l)
  ∧ zh0 `prefix_of` zh
  ∧ (∀ path, path ∈ todo →
       ∃ root files,
         common_root_directory_of inputs path sep = Ok root
         ∧ files_of_input fs igd igv path = Ok files
         ∧ ∀ p, p ∈ files →
             (∃ hv rel l, hash_file_at_path fs p "sha1" = Ok hv
                          ∧ rel_path_of p root flag = Ok rel
                          ∧ d !! hv = Some l ∧ rel ∈ l)
             ∧ (∀ content, open_rb fs p = Ok content →
                  ∃ arcname name, arcname_of p root flag = Ok arcname
                                  ∧ stored_name arcname false = Ok name
                                  ∧ ZipEntry name content ∈ zh)).
Proof.
  revert d0 n0 zh0. induction todo as [|path todo IH]; intros d0 n0 zh0 Hrun.
  - injection Hrun as <- <- <-. split; [eauto|]. split; [done|].
    intros p Hp. by apply elem_of_nil in Hp.
  - rewrite create_zip_from_cons in Hrun.
    destruct (common_root_directory_of inputs path sep) as [root|e] eqn:Hroot; [|done].
    cbn [mbind result_bind] in Hrun.
    destruct (files_of_input fs igd igv path) as [files|e] eqn:Hfiles; [|done].
    cbn [mbind result_bind] in Hrun.
    destruct (get_hash_dict fs files root flag) as [dict|e] eqn:Hdict; [|done].
    cbn [mbind result_bind] in Hrun.
    destruct (add_files_to_zip fs files root zh0 flag) as [zh1|e] eqn:Hadd; [|done].
    cbn [mbind result_bind] in Hrun.
    apply IH in Hrun as (Hgrow & Hpre & Hrec).
    apply get_hash_dict_from_records in Hdict as [_ Hdict].
    apply add_files_to_zip_records in Hadd as [Hpre1 Hadd].
    split; [|split; [by etrans|]].
    + intros k l0 Hk.
      pose proof (merge_hash_dict_lookup d0 dict k) as Hm. rewrite Hk in Hm.
      destruct (dict !! k) as [y|]; destruct (Hgrow _ _ Hm) as (l & Hl & Hp);
        exists l; (split; [done|]); [|done].
      etrans; [|done]. by apply prefix_app_r.
    + intros q [->|Hq]%elem_of_cons; [|by apply Hrec].
      exists root, files. do 2 (split; [done|]). intros p Hp. split.
      * destruct (Hdict p Hp) as (hv & rel & l & Hhash & Hrel & Hl & Hin).
        pose proof (merge_hash_dict_lookup d0 dict hv) as Hm. rewrite Hl in Hm.
        destruct (d0 !! hv) as [x|]; destruct (Hgrow _ _ Hm) as (l' & Hl' & Hp');
          exists hv, rel, l'; (do 3 (split; [done|]));
          (eapply elem_of_prefix; [|done]); [|done].
        apply elem_of_app. by right.
      * intros content Hopen.
        destruct (Hadd p content Hp Hopen) as (arcname & name & Harc & Hname & Hin).
        exists arcname, name. do 2 (split; [done|]). by eapply elem_of_prefix.
Qed.

(** C5. In a run of [create_zip], two source files with the same bytes
    stand under one digest key in the source hash index, each with its
    relative name; and when the entries of the archive that bear the same
    name hold the same bytes, their two entries stand under that same key in
    the hash index built from the archive, each with its stored name. *)
Theorem duplicate_content_one_digest_key (fs : node) (inputs : list string)
    (igd igv flag : bool) (sep : string)
    (file_hash_dict : gmap string (list string)) (total_file_count : nat)
    (zip_handler : archive)
    (path1 path2 : string) (root1 root2 : option string) (files1 files2 : list string)
    (file1 file2 : string) (content : bytes) :
  create_zip_from fs inputs igd igv flag sep inputs (∅, 0, [])
  = Ok (file_hash_dict, total_file_count, zip_handler) →
  path1 ∈ inputs → common_root_directory_of inputs path1 sep = Ok root1 →
  files_of_input fs igd igv path1 = Ok files1 → file1 ∈ files1 →
  path2 ∈ inputs → common_root_directory_of inputs path2 sep = Ok root2 →
  files_of_input fs igd igv path2 = Ok files2 → file2 ∈ files2 →
  open_rb fs file1 = Ok content → open_rb fs file2 = Ok content →
  ∃ hash_value rel1 rel2 paths,
    rel_path_of file1 root1 flag = Ok rel1
    ∧ rel_path_of file2 root2 flag = Ok rel2
    ∧ file_hash_dict !! hash_value = Some paths ∧ rel1 ∈ paths ∧ rel2 ∈ paths
    ∧ (archive_consistent zip_handler →
       ∃ arcname1 arcname2 name1 name2 zip_hash_dict names,
         arcname_of file1 root1 flag = Ok arcname1
         ∧ stored_name arcname1 false = Ok name1
         ∧ arcname_of file2 root2 flag = Ok arcname2
         ∧ stored_name arcname2 false = Ok name2
         ∧ get_zip_hash_dict zip_handler = Ok (zip_hash_dict, length zip_handler)
         ∧ zip_hash_dict !! hash_value = Some names
         ∧ name1 ∈ names ∧ name2 ∈ names).
Proof.
  intros Hrun Hpath1 Hroot1 Hfiles1 Hfile1 Hpath2 Hroot2 Hfiles2 Hfile2 Hopen1 Hopen2.
  apply create_zip_from_records in Hrun as (_ & _ & Hrec).
  destruct (Hrec path1 Hpath1) as (r1 & f1 & Hr1 & Hf1 & Hrec1).
  destruct (Hrec path2 Hpath2) as (r2 & f2 & Hr2 & Hf2 & Hrec2).
  rewrite Hroot1 in Hr1. rewrite Hroot2 in Hr2. rewrite Hfiles1 in Hf1. rewrite Hfiles2 in Hf2.
  injection Hr1 as <-. injection Hr2 as <-. injection Hf1 as <-. injection Hf2 as <-.
  destruct (Hrec1 file1 Hfile1) as [(hv1 & rel1 & l1 & Hhash1 & Hrel1 & Hl1 & Hin1) Hzip1].
  destruct (Hrec2 file2 Hfile2) as [(hv2 & rel2 & l2 & Hhash2 & Hrel2 & Hl2 & Hin2) Hzip2].
  destruct (Hzip1 content Hopen1) as (arcname1 & name1 & Harc1 & Hname1 & He1).
  destruct (Hzip2 content Hopen2) as (arcname2 & name2 & Harc2 & Hname2 & He2).
  rewrite (hash_file_at_path_content _ _ _ _ Hopen1) in Hhash1.
  rewrite (hash_file_at_path_content _ _ _ _ Hopen2) in Hhash2.
  apply Ok_inj in Hhash1 as <-. apply Ok_inj in Hhash2 as <-.
  rewrite Hl1 in Hl2. injection Hl2 as <-.
  exists (content_digest "sha1" content), rel1, rel2, l1.
  do 5 (split; [done|]). intros Hcons.
  destruct (get_zip_hash_dict_finishes zip_handler) as [zd Hzd].
  pose proof Hzd as Hzd'. unfold get_zip_hash_dict in Hzd'.
  apply zip_hash_dict_from_records in Hzd' as [_ Hnames].
  assert (∀ name, ZipEntry name content ∈ zip_handler →
            hash_file_in_zip zip_handler name "sha1"
            = Ok (content_digest "sha1" content)) as Hhashzip.
  { intros name He. apply hash_file_in_zip_content.
    by apply (zip_open_consistent zip_handler (ZipEntry name content)). }
  destruct (Hnames name1) as (hv1' & names & Hh1 & Hnames1 & Hin1').
  { apply list_elem_of_fmap. by exists (ZipEntry name1 content). }
  destruct (Hnames name2) as (hv2' & names2 & Hh2 & Hnames2 & Hin2').
  { apply list_elem_of_fmap. by exists (ZipEntry name2 content). }
  rewrite Hhashzip in Hh1 by done. rewrite Hhashzip in Hh2 by done.
  apply Ok_inj in Hh1 as <-. apply Ok_inj in Hh2 as <-.
  rewrite Hnames1 in Hnames2. injection Hnames2 as <-.
  exists arcname1, arcname2, name1, name2, zd, names.
  repeat split; done.
Qed.
End CreateZip.

Lemma duplicate_content_one_digest_key_witness :
  ∃ hash_value rel1 rel2 paths,
    @rel_path_of linux "/a/x.txt" (Some "/a") false = Ok rel1
    ∧ @rel_path_of linux "/a/y.txt" (Some "/a") false = Ok rel2
    ∧ ({[ sha1_hi := ["x.txt"; "y.txt"] ]} : gmap string (list string)) !! hash_value
      = Some paths
    ∧ rel1 ∈ paths ∧ rel2 ∈ paths
    ∧ (archive_consistent [ZipEntry "x.txt" hi; ZipEntry "y.txt" hi] →
       ∃ arcname1 arcname2 name1 name2 zip_hash_dict names,
         @arcname_of linux "/a/x.txt" (Some "/a") false = Ok arcname1
         ∧ @stored_name linux arcname1 false = Ok name1
         ∧ @arcname_of linux "/a/y.txt" (Some "/a") false = Ok arcname2
         ∧ @stored_name linux arcname2 false = Ok name2
         ∧ get_zip_hash_dict [ZipEntry "x.txt" hi; ZipEntry "y.txt" hi]
           = Ok (zip_hash_dict, length [ZipEntry "x.txt" hi; ZipEntry "y.txt" hi])
         ∧ zip_hash_dict !! hash_value = Some names
         ∧ name1 ∈ names ∧ name2 ∈ names).
Proof.
  apply (@duplicate_content_one_digest_key linux hashlib_sha1 two_copies
           ["/a/x.txt"; "/a/y.txt"] false false false "/"
           {[ sha1_hi := ["x.txt"; "y.txt"] ]} 2
           [ZipEntry "x.txt" hi; ZipEntry "y.txt" hi]
           "/a/x.txt" "/a/y.txt" (Some "/a") (Some "/a") ["/a/x.txt"] ["/a/y.txt"]
           "/a/x.txt" "/a/y.txt" hi).
  - compute_done.
  - apply elem_of_cons. by left.
  - reflexivity.
  - reflexivity.
  - apply elem_of_cons. by left.
  - apply elem_of_cons. right. apply elem_of_cons. by left.
  - reflexivity.
  - reflexivity.
  - apply elem_of_cons. by left.
  - reflexivity.
  - reflexivity.
Defined.

(** The example of the specification, run: both names under the digest of
    "hi" on either side, two files counted on either side, [Verified]. *)
Example specification_example_run :
  @create_zip linux hashlib_sha1 (writable two_copies) "/out.zip"
    ["/a/x.txt"; "/a/y.txt"] false false false "/"
  = (Written [ZipEntry "x.txt" hi; ZipEntry "y.txt" hi],
     Ok ({[ sha1_hi := ["x.txt"; "y.txt"] ]}, 2))
  ∧ get_zip_hash_dict [ZipEntry "x.txt" hi; ZipEntry "y.txt" hi]
    = Ok ({[ sha1_hi := ["x.txt"; "y.txt"] ]}, 2)
  ∧ archive_consistent [ZipEntry "x.txt" hi; ZipEntry "y.txt" hi]
  ∧ @main linux hashlib_sha1 0 (writable two_copies)
      {| input_paths := ["/a/x.txt"; "/a/y.txt"]; output_path := Some "/out.zip";
         root_directory := false; ignore_dotfiles := false;
         ignore_windows_volume_folders := false |} "ts"
    = Some (Outcome Verified (Written [ZipEntry "x.txt" hi; ZipEntry "y.txt" hi]) None).
Proof. each_computed. Qed.

Section IrregularFile.
Context `{Os} `{Hashlib}.

(** C7. When a file of the list is missing or is not a regular file at hash
    time, [get_hash_dict] raises and returns no dict; the files before it
    having been hashed, the exception is the [IOError] whose message names
    that file, and it is raised whatever was recorded so far, before the
    file is hashed: the file is not skipped and nothing is recorded for
    it. *)
Theorem get_hash_dict_irregular_file (fs : node) (file_list : list string)
    (root_dir : option string) (dir_flag : bool) (file_path : string) :
  file_path ∈ file_list → isfile fs file_path = false →
  (∃ e, get_hash_dict fs file_list root_dir dir_flag = Raise e)
  ∧ (∀ before after hash_dict,
       file_list = before ++ file_path :: after →
       get_hash_dict fs before root_dir dir_flag = Ok hash_dict →
       get_hash_dict fs file_list root_dir dir_flag
       = Raise (IOError (not_regular_file_message file_path)))
  ∧ (∀ after hash_dict,
       get_hash_dict_from fs (file_path :: after) root_dir dir_flag hash_dict
       = Raise (IOError (not_regular_file_message file_path)))
  ∧ (∃ rest, not_regular_file_message file_path = "'" +:+ file_path +:+ rest).
Proof.
  intros Hin Hirregular.
  assert (∀ after hash_dict,
            get_hash_dict_from fs (file_path :: after) root_dir dir_flag hash_dict
            = Raise (IOError (not_regular_file_message file_path))) as Hhere.
  { intros after hash_dict. rewrite get_hash_dict_from_cons. by rewrite Hirregular. }
  split; [|split; [|split]].
  - apply list_elem_of_split in Hin as (before & after & ->).
    unfold get_hash_dict. rewrite get_hash_dict_from_app.
    destruct (get_hash_dict_from fs before root_dir dir_flag ∅) as [d|e]; cbn [mbind result_bind].
    + rewrite Hhere. eauto.
    + eauto.
  - intros before after hash_dict -> Hbefore.
    unfold get_hash_dict in *. rewrite get_hash_dict_from_app, Hbefore.
    cbn [mbind result_bind]. apply Hhere.
  - apply Hhere.
  - by eexists.
Qed.
End IrregularFile.

Lemma get_hash_dict_irregular_file_witness :
  (∃ e, @get_hash_dict linux hashlib_sha1 with_pipe ["/a/x.txt"; "/a/pipe"] (Some "/a")
          false = Raise e)
  ∧ (∀ before after hash_dict,
       ["/a/x.txt"; "/a/pipe"] = before ++ "/a/pipe" :: after →
       @get_hash_dict linux hashlib_sha1 with_pipe before (Some "/a") false
       = Ok hash_dict →
       @get_hash_dict linux hashlib_sha1 with_pipe ["/a/x.txt"; "/a/pipe"] (Some "/a")
         false
       = Raise (IOError (not_regular_file_message "/a/pipe")))
  ∧ (∀ after hash_dict,
       @get_hash_dict_from linux hashlib_sha1 with_pipe ("/a/pipe" :: after)
         (Some "/a") false hash_dict
       = Raise (IOError (not_regular_file_message "/a/pipe")))
  ∧ (∃ rest, not_regular_file_message "/a/pipe" = "'" +:+ "/a/pipe" +:+ rest).
Proof.
  apply (@get_hash_dict_irregular_file linux hashlib_sha1 with_pipe
           ["/a/x.txt"; "/a/pipe"] (Some "/a") false "/a/pipe").
  - apply elem_of_cons. right. apply elem_of_cons. by left.
  - reflexivity.
Defined.

(** ** The verification of the archive *)

Section Verification.
Context {host : Os} {hashlib : Hashlib}.

Lemma hashes_match_true (s z : gmap string (list string)) (n m : nat) :
  hashes_match s z n m = true ↔ s = z ∧ n = m.
Proof.
  unfold hashes_match. rewrite andb_true_iff, bool_decide_eq_true, Nat.eqb_eq. done.
Qed.



Lemma verify_unfold (w : world) (dir ts : string) (s z : gmap string (list string))
    (n m : nat) (zh : archive) :
  get_zip_hash_dict zh = Ok (z, m) →
  verify w dir ts s n zh
  = if hashes_match s z n m then Outcome Verified (Written zh) None
    else if creatable w (error_log_file_path_of dir ts)
         then Outcome FailedVerification Absent
                (Some (error_log_file_path_of dir ts, MismatchLog (mismatch_lines s z)))
         else Outcome (Uncaught (IOError (error_log_file_path_of dir ts))) (Written zh) None.
Proof.
  intros Hz. unfold verify. rewrite Hz.
  destruct (hashes_match s z n m); [done|].
  by destruct (creatable w _).
Qed.

Lemma verify_ended_verified (w : world) (dir ts : string)
    (s z : gmap string (list string)) (n m : nat) (zh : archive) :
  get_zip_hash_dict zh = Ok (z, m) →
  ended (verify w dir ts s n zh) = Verified ↔ s = z ∧ n = m.
Proof.
  intros Hz. rewrite (verify_unfold _ _ _ _ z _ m) by done.
  rewrite <- hashes_match_true.
  destruct (hashes_match s z n m); [done|].
  by destruct (creatable w _).
Qed.



Lemma main_from_unfold (w : world) (args : Args) (inputs : list string)
    (out dir ts sep : string) :
  main_from w args inputs out dir ts sep
  = match create_zip w out inputs (ignore_dotfiles args)
            (ignore_windows_volume_folders args) (root_directory args) sep with
    | (on_disk, Raise e) =>
        if creatable w (error_log_file_path_of dir ts)
        then Outcome (CreationFailed e) Absent
               (Some (error_log_file_path_of dir ts, ExceptionLog e))
        else Outcome (Uncaught (IOError (error_log_file_path_of dir ts))) on_disk None
    | (Written zh, Ok (s, n)) => verify w dir ts s n zh
    | (on_disk, Ok _) => Outcome (Uncaught (IOError out)) on_disk None
    end.
Proof.
  unfold main_from. destruct (create_zip _ _ _ _ _ _ _) as [on_disk [[s n]|e]].
  - done.
  - by destruct (creatable w _), on_disk.
Qed.

(** C3, as the code has it. On a fatal path of the run, an exception out of
    [create_zip] or dicts or counts that do not match, and with the error
    file creatable, no archive is left, the timestamped error file is
    written in the output directory, and [main] returns: the exit status is
    0, not non-zero. *)
Theorem fatal_paths_remove_archive_and_return (w : world) (args : Args)
    (inputs : list string)
    (output_path output_directory run_time_str path_separator : string) :
  creatable w (error_log_file_path_of output_directory run_time_str) = true →
  (∃ on_disk e,
     create_zip w output_path inputs (ignore_dotfiles args)
       (ignore_windows_volume_folders args) (root_directory args) path_separator
     = (on_disk, Raise e))
  ∨ (∃ zip_handler file_hash_dict total_file_count zip_hash_dict zip_file_count,
       create_zip w output_path inputs (ignore_dotfiles args)
         (ignore_windows_volume_folders args) (root_directory args) path_separator
       = (Written zip_handler, Ok (file_hash_dict, total_file_count))
       ∧ get_zip_hash_dict zip_handler = Ok (zip_hash_dict, zip_file_count)
       ∧ hashes_match file_hash_dict zip_hash_dict total_file_count zip_file_count
         = false) →
  ∃ report,
    main_from w args inputs output_path output_directory run_time_str path_separator
    = Outcome (match report with
               | ExceptionLog e => CreationFailed e
               | MismatchLog _ => FailedVerification
               end) Absent
        (Some (error_log_file_path_of output_directory run_time_str, report))
    ∧ exit_status
        (main_from w args inputs output_path output_directory run_time_str
           path_separator) = 0%Z.
Proof.
  intros Hcreate [(on_disk & e & Hzip)|(zh & s & n & z & m & Hzip & Hz & Hm)];
    rewrite main_from_unfold, Hzip.
  - cbv beta iota. rewrite Hcreate. exists (ExceptionLog e). by destruct on_disk.
  - cbv beta iota. rewrite (verify_unfold _ _ _ _ z _ m), Hm, Hcreate by done.
    by exists (MismatchLog (mismatch_lines s z)).
Qed.

(** A run ends in [Verified] exactly when [create_zip] returned and the
    dict and the count it returned are those built from the archive it
    wrote. *)
Lemma main_from_verified_iff (w : world) (args : Args) (inputs : list string)
    (out dir ts sep : string) :
  ended (main_from w args inputs out dir ts sep) = Verified
  ↔ ∃ zh s,
      create_zip w out inputs (ignore_dotfiles args)
        (ignore_windows_volume_folders args) (root_directory args) sep
      = (Written zh, Ok (s, length zh))
      ∧ get_zip_hash_dict zh = Ok (s, length zh).
Proof.
  rewrite main_from_unfold.
  destruct (create_zip _ _ _ _ _ _ _) as [on_disk [[s n]|e]].
  - destruct on_disk as [| |zh].
    + split; [done|]. by intros (? & ? & [=] & _).
    + split; [done|]. by intros (? & ? & [=] & _).
    + destruct (get_zip_hash_dict_finishes zh) as [z Hz].
      rewrite (verify_ended_verified _ _ _ _ z _ (length zh)) by done. split.
      * intros [-> ->]. by exists zh, z.
      * intros (zh' & s' & [= <- <- ->] & Hz'). rewrite Hz in Hz'.
        by injection Hz' as <-.
  - split.
    + by destruct (creatable w _), on_disk.
    + by intros (? & ? & [=] & _).
Qed.
End Verification.



(** A run that meets a pipe: [create_zip] raises, the handler removes the
    archive and writes the error file, and [main] returns, so that the exit
    status is 0. *)
Lemma creation_failure_exits_with_zero :
  @create_zip linux hashlib_sha1 (writable with_pipe) "/out.zip" ["/a"] false false false
    "/"
  = (Partial, Raise (IOError (not_regular_file_message "/a/pipe")))
  ∧ @main linux hashlib_sha1 0 (writable with_pipe) archive_a "ts"
    = Some (Outcome (CreationFailed (IOError (not_regular_file_message "/a/pipe")))
              Absent
              (Some ("/ts_verizip_error.txt",
                     ExceptionLog (IOError (not_regular_file_message "/a/pipe")))))
  ∧ option_map exit_status (@main linux hashlib_sha1 0 (writable with_pipe) archive_a "ts")
    = Some 0%Z.
Proof. each_computed. Qed.

Lemma fatal_paths_remove_archive_and_return_witness :
  ∃ report,
    @main_from linux hashlib_sha1 (writable with_pipe) archive_a ["/a"] "/out.zip" "/"
      "ts" "/"
    = Outcome (match report with
               | ExceptionLog e => CreationFailed e
               | MismatchLog _ => FailedVerification
               end) Absent
        (Some (@error_log_file_path_of linux "/" "ts", report))
    ∧ exit_status
        (@main_from linux hashlib_sha1 (writable with_pipe) archive_a ["/a"] "/out.zip"
           "/" "ts" "/") = 0%Z.
Proof.
  apply (@fatal_paths_remove_archive_and_return linux hashlib_sha1 (writable with_pipe)
           archive_a ["/a"] "/out.zip" "/" "ts" "/").
  - reflexivity.
  - left. exists Partial, (IOError (not_regular_file_message "/a/pipe")).
    compute_done.
Defined.

(** The run on an input that begins with two slashes: the names differ, the
    run fails verification and the archive is removed. *)
Example double_slash_run_fails_verification :
  @main linux hashlib_sha1 0 (writable two_copies)
    {| input_paths := ["//a/x.txt"; "/a/y.txt"]; output_path := Some "/out.zip";
       root_directory := false; ignore_dotfiles := false;
       ignore_windows_volume_folders := false |} "ts"
  = Some (Outcome FailedVerification Absent
            (Some ("/ts_verizip_error.txt",
                   MismatchLog [FilesDoNotMatch sha1_hi ["/a/x.txt"; "a/y.txt"]
                                  ["a/x.txt"; "a/y.txt"]]))).
Proof. compute_done. Qed.

(** ** The order of [sorted] *)

#[global] Instance str_le_total : Total str_le.
Proof. intros a b. apply String.leb_total. Qed.

#[global] Instance str_le_antisymm : AntiSymm (=) str_le.
Proof. intros a b. apply String.leb_antisym. Qed.

#[global] Instance str_le_trans : Transitive str_le.
Proof.
  unfold str_le, String.leb. intros a. induction a as [|x a IH]; intros [|y b] [|z c];
    simpl; try done.
  unfold Ascii.compare.
  destruct (N.compare_spec (N_of_ascii x) (N_of_ascii y)) as [Hxy|Hxy|Hxy];
    destruct (N.compare_spec (N_of_ascii y) (N_of_ascii z)) as [Hyz|Hyz|Hyz];
    destruct (N.compare_spec (N_of_ascii x) (N_of_ascii z)) as [Hxz|Hxz|Hxz];
    try done; try lia.
  apply IH.
Qed.

Lemma sorted_Permutation (l : list string) : sorted l ≡ₚ l.
Proof. apply merge_sort_Permutation. Qed.

Lemma sorted_StronglySorted (l : list string) : StronglySorted str_le (sorted l).
Proof. apply StronglySorted_merge_sort; apply _. Qed.

(** Two lists sort to the same list exactly when they hold the same items
    the same number of times. *)
Lemma sorted_eq_iff (a b : list string) : sorted a = sorted b ↔ a ≡ₚ b.
Proof.
  split.
  - intros Heq. rewrite <- (sorted_Permutation a), Heq. apply sorted_Permutation.
  - intros Hperm. apply (StronglySorted_unique str_le); try apply sorted_StronglySorted.
    by rewrite !sorted_Permutation.
Qed.

(** ** Splitting and joining *)

Lemma split_go_nonempty (sep : string) (k : nat) (s : string) : split_go sep k s ≠ [].
Proof.
  revert k. induction s as [|a t IH]; intros k; cbn [split_go]; [done|].
  destruct k as [|k]; [|apply IH].
  destruct (String.prefix sep (String a t)); [done|].
  by destruct (split_go sep 0 t).
Qed.

(** The characters of a separator that was met are passed over. *)
Lemma split_go_skip (sep pre u : string) :
  split_go sep (String.length pre) (pre +:+ u) = split_go sep 0 u.
Proof. induction pre as [|a pre IH]; [done|]. simpl. apply IH. Qed.

Lemma prefix_app_inv (pre s : string) :
  String.prefix pre s = true → ∃ u, s = pre +:+ u.
Proof.
  revert s. induction pre as [|a pre IH]; intros s; simpl; [by exists s|].
  destruct s as [|b s]; [done|]. simpl.
  destruct (Ascii.ascii_dec a b) as [->|]; [|done].
  intros [u ->]%IH. by exists u.
Qed.

Lemma prefix_app (pre u : string) : String.prefix pre (pre +:+ u) = true.
Proof.
  induction pre as [|a pre IH]; simpl; [by destruct u|].
  by destruct (Ascii.ascii_dec a a).
Qed.

Lemma str_join_cons_ne (sep x : string) (l : list string) :
  l ≠ [] → str_join sep (x :: l) = x +:+ sep +:+ str_join sep l.
Proof. by destruct l. Qed.

Lemma str_join_String (sep : string) (a : ascii) (w : string) (ws : list string) :
  str_join sep (String a w :: ws) = String a (str_join sep (w :: ws)).
Proof. by destruct ws. Qed.

Lemma str_join_app (sep : string) (l1 l2 : list string) :
  l1 ≠ [] → l2 ≠ [] →
  str_join sep (l1 ++ l2) = str_join sep l1 +:+ sep +:+ str_join sep l2.
Proof.
  intros H1 H2. induction l1 as [|x l1 IH]; [done|].
  destruct l1 as [|y l1].
  - simpl. by destruct l2.
  - rewrite <- app_comm_cons, !str_join_cons_ne by done.
    rewrite IH by done. by rewrite !app_assoc_str.
Qed.

Lemma length_app_str (s t : string) :
  String.length (s +:+ t) = String.length s + String.length t.
Proof. induction s as [|a s IH]; simpl; [done|]. by rewrite IH. Qed.

(** Joining what [split] returns with the separator gives the string
    back. *)
Lemma str_join_split_go (sep s : string) :
  sep ≠ "" → str_join sep (split_go sep 0 s) = s.
Proof.
  intros Hsep. remember (String.length s) as n eqn:Hn. revert s Hn.
  induction n as [n IH] using lt_wf_ind. intros [|a t] Hn; [done|].
  cbn [split_go]. destruct (String.prefix sep (String a t)) eqn:Hpre.
  - apply prefix_app_inv in Hpre as [u Hu].
    destruct sep as [|b sep']; [done|]. injection Hu as -> ->.
    replace (String.length (String b sep') - 1) with (String.length sep')
      by (simpl; lia).
    rewrite split_go_skip, str_join_cons_ne by apply split_go_nonempty.
    rewrite (IH (String.length u)); [done| |done].
    subst n. simpl. rewrite length_app_str. lia.
  - pose proof (split_go_nonempty sep 0 t) as Hne.
    pose proof (IH (String.length t) ltac:(subst n; simpl; lia) t eq_refl) as Ht.
    destruct (split_go sep 0 t) as [|w ws]; [done|].
    by rewrite str_join_String, Ht.
Qed.

Lemma app_eq_empty (s t : string) : s +:+ t = "" → s = "" ∧ t = "".
Proof. by destruct s. Qed.

Lemma str_join_empty (sep : string) (l : list string) :
  sep ≠ "" → str_join sep l = "" ↔ l = [] ∨ l = [""].
Proof.
  intros Hsep. split.
  - destruct l as [|x [|y l]]; simpl; [by left|intros ->; by right|].
    intros [_ [? _]%app_eq_empty]%app_eq_empty. done.
  - by intros [->| ->].
Qed.

(** ** The common root as a string *)

Lemma get_common_root_directory_unfold (paths : list string) (sep : string) :
  sep ≠ "" →
  get_common_root_directory paths sep
  = Ok (if String.eqb (str_join sep (common_components (map (split_go sep 0) paths))) ""
        then None
        else Some (str_join sep (common_components (map (split_go sep 0) paths)))).
Proof.
  intros Hsep. unfold get_common_root_directory. rewrite split_all_ok by done.
  cbn [mbind result_bind]. by destruct (String.eqb _ "").
Qed.

(** The root [get_common_root_directory] returns begins every path and ends
    in it where a component ends: a path is the root itself, or the root
    followed by the separator and more. *)
Theorem common_root_starts_every_path (paths : list string) (sep root : string) :
  get_common_root_directory paths sep = Ok (Some root) →
  ∀ p, p ∈ paths → p = root ∨ ∃ rest, p = root +:+ sep +:+ rest.
Proof.
  intros Hrun p Hp.
  assert (sep ≠ "") as Hsep.
  { intros ->. destruct paths as [|q paths]; [by apply elem_of_nil in Hp|done]. }
  rewrite get_common_root_directory_unfold in Hrun by done.
  destruct (String.eqb_spec (str_join sep (common_components (map (split_go sep 0) paths)))
              "") as [|Hne]; [done|].
  injection Hrun as <-.
  assert (common_components (map (split_go sep 0) paths) `prefix_of` split_go sep 0 p)
    as [rest Hrest].
  { apply (common_components_spec (map (split_go sep 0) paths)); [by destruct paths|done|].
    apply list_elem_of_fmap. eauto. }
  pose proof (str_join_split_go sep p Hsep) as Hjoin. rewrite Hrest in Hjoin.
  destruct rest as [|r rest]; [left; by rewrite app_nil_r in Hjoin|].
  right. exists (str_join sep (r :: rest)). rewrite <- Hjoin.
  apply str_join_app; [|done].
  intros Hnil. by rewrite Hnil in Hne.
Qed.

(** When [get_common_root_directory] has no root to return. An empty list
    of paths has none; an empty separator makes [split] raise; otherwise
    there is none exactly when the paths share no leading component, or
    only an empty one, as absolute POSIX paths do that part right after the
    first slash. *)
Theorem common_root_absent (paths : list string) (sep : string) :
  get_common_root_directory [] sep = Ok None
  ∧ (paths ≠ [] →
     get_common_root_directory paths "" = Raise (ValueError "empty separator"))
  ∧ (paths ≠ [] → sep ≠ "" →
     (get_common_root_directory paths sep = Ok None
      ↔ ∀ l, (∀ p, p ∈ paths → l `prefix_of` split_go sep 0 p) → l = [] ∨ l = [""])).
Proof.
  split; [done|]. split; [by destruct paths|].
  intros Hpaths Hsep. rewrite get_common_root_directory_unfold by done.
  assert (∀ l, (∀ p, p ∈ paths → l `prefix_of` split_go sep 0 p)
               ↔ l `prefix_of` common_components (map (split_go sep 0) paths)) as Hspec.
  { intros l. rewrite common_components_spec by (by destruct paths). split.
    - intros Hall c (p & -> & Hp)%list_elem_of_fmap. auto.
    - intros Hall p Hp. apply Hall, list_elem_of_fmap. eauto. }
  destruct (String.eqb_spec (str_join sep (common_components (map (split_go sep 0) paths)))
              "") as [Hempty|Hne].
  - split; [|done]. intros _ l Hl%Hspec.
    apply (proj1 (str_join_empty sep _ Hsep)) in Hempty as [Hc|Hc]; rewrite Hc in Hl.
    + left. by apply prefix_nil_inv.
    + destruct Hl as [k Hk]. destruct l as [|x [|y l]]; [by left| |done].
      right. by injection Hk as <-.
  - split; [done|]. intros Hall. exfalso. apply Hne, str_join_empty; [done|].
    apply Hall, Hspec. done.
Qed.

(** ** Hash indices as groupings *)

Lemma names_under_app (k : string) (a b : list (string * string)) :
  names_under k (a ++ b) = names_under k a ++ names_under k b.
Proof. unfold names_under. by rewrite filter_app, map_app. Qed.

Lemma names_under_cons (k k' v : string) (items : list (string * string)) :
  names_under k' ((k, v) :: items)
  = if decide (k = k') then v :: names_under k' items else names_under k' items.
Proof.
  unfold names_under. rewrite filter_cons. simpl.
  destruct (decide (k = k')); done.
Qed.

Lemma grown_nil (o : option (list string)) : grown o [] = o.
Proof. destruct o as [l|]; simpl; [|done]. by rewrite app_nil_r. Qed.

Lemma grown_grown (o : option (list string)) (a b : list string) :
  grown (grown o a) b = grown o (a ++ b).
Proof.
  destruct o as [l|], a as [|x a], b as [|y b]; simpl; rewrite ?app_nil_r; try done.
  - by rewrite <- app_assoc.
Qed.

Lemma grown_None (l : list string) (items : list (string * string)) (k : string) :
  grown None (names_under k items) = index_of_items items k.
Proof. unfold index_of_items. by destruct (names_under k items). Qed.

(** One round of either index loop, on the key [k']. *)
Lemma lookup_index_append_grown (d : gmap string (list string)) (k v k' : string) :
  alter (fun l => l ++ [v]) k
    (match d !! k with None => <[k := []]> d | Some _ => d end) !! k'
  = grown (d !! k') (names_under k' [(k, v)]).
Proof.
  rewrite lookup_index_append, names_under_cons.
  destruct (decide (k = k')) as [->|Hne].
  - by destruct (d !! k').
  - by rewrite grown_nil.
Qed.


Section IndexGroups.
Context `{Os} `{Hashlib}.

Lemma isfile_open_rb (fs : node) (p : string) (content : bytes) :
  open_rb fs p = Ok content → isfile fs p = true.
Proof.
  unfold open_rb, isfile. by destruct (path_lookup fs p) as [[[|] ?| |]|].
Qed.

Lemma get_hash_dict_from_groups (fs : node) (files : list string)
    (root : option string) (flag : bool) (acc d : gmap string (list string)) :
  get_hash_dict_from fs files root flag acc = Ok d →
  ∃ items : list (bytes * string),
    Forall2 (λ p item, isfile fs p = true ∧ open_rb fs p = Ok item.1
                       ∧ rel_path_of p root flag = Ok item.2) files items
    ∧ ∀ k, d !! k
           = grown (acc !! k)
               (names_under k (map (λ item, (content_digest "sha1" item.1, item.2)) items)).
Proof.
  revert acc. induction files as [|p files IH]; intros acc Hrun.
  - injection Hrun as <-. exists []. split; [constructor|]. intros k. simpl.
    by rewrite grown_nil.
  - rewrite get_hash_dict_from_cons in Hrun.
    destruct (isfile fs p) eqn:Hfile; [|done].
    unfold hash_file_at_path in Hrun at 1.
    destruct (open_rb fs p) as [content|e] eqn:Hopen; [|done].
    cbn [mbind result_bind] in Hrun.
    destruct (rel_path_of p root flag) as [rel|e] eqn:Hrel; [|done].
    cbn [mbind result_bind] in Hrun.
    apply IH in Hrun as (items & Hitems & Hd).
    exists ((content, rel) :: items). split; [by constructor|].
    intros k. rewrite Hd. fold (content_digest "sha1" content).
    rewrite lookup_index_append_grown, grown_grown.
    by rewrite <- names_under_app.
Qed.

End IndexGroups.

Lemma getinfo_named (a : archive) (name : string) (e : zip_entry) :
  getinfo a name = Some e → name ∈ namelist a.
Proof.
  revert e. induction a as [|e0 a IH]; intros e; simpl; [done|].
  destruct (getinfo a name) as [e'|].
  - intros _. apply elem_of_cons. right. by apply (IH e').
  - destruct (String.eqb_spec (ze_name e0) name) as [->|]; [|done].
    intros _. apply elem_of_cons. by left.
Qed.

(** [open] reads the last entry that bears the name. *)
Lemma getinfo_last (a : archive) (name : string) :
  name ∈ namelist a →
  ∃ before e after,
    a = before ++ e :: after ∧ ze_name e = name ∧ (name ∉ namelist after)
    ∧ getinfo a name = Some e.
Proof.
  induction a as [|e0 a IH]; simpl; [by intros ?%elem_of_nil|].
  intros Hin. destruct (decide (name ∈ namelist a)) as [Hin'|Hnot].
  - destruct (IH Hin') as (before & e & after & -> & Hname & Hafter & ->).
    by exists (e0 :: before), e, after.
  - apply elem_of_cons in Hin as [->|Hin]; [|done].
    exists [], e0, a. repeat split; [done|].
    destruct (getinfo a (ze_name e0)) as [e'|] eqn:Hget.
    + by apply getinfo_named in Hget.
    + by rewrite String.eqb_refl.
Qed.

Section ZipGroups.
Context `{Os} `{Hashlib}.

Lemma hash_file_in_zip_listed (a : archive) (name : string) :
  name ∈ namelist a →
  hash_file_in_zip a name "sha1" = Ok (content_digest "sha1" (data_in_zip a name)).
Proof.
  intros Hin. apply hash_file_in_zip_content. unfold zip_open, data_in_zip.
  by destruct (getinfo_listed a name Hin) as (e & -> & _).
Qed.

Lemma zip_hash_dict_from_groups (a : archive) (listing : list string)
    (acc : gmap string (list string)) (count : nat) :
  (∀ name, name ∈ listing → name ∈ namelist a) →
  ∃ d, zip_hash_dict_from a listing (acc, count) = Ok (d, count + length listing)
       ∧ ∀ k, d !! k
              = grown (acc !! k)
                  (names_under k
                     (map (λ name, (content_digest "sha1" (data_in_zip a name), name))
                        listing)).
Proof.
  revert acc count. induction listing as [|name listing IH]; intros acc count Hall.
  - exists acc. simpl. rewrite Nat.add_0_r. split; [done|]. intros k.
    by rewrite grown_nil.
  - rewrite zip_hash_dict_from_cons.
    rewrite hash_file_in_zip_listed by (apply Hall; by left).
    cbn [mbind result_bind].
    edestruct IH as (d & Hd & Hk); [intros n Hn; apply Hall; by right|].
    exists d. rewrite Hd. split; [do 2 f_equal; simpl; lia|].
    intros k. rewrite Hk, lookup_index_append_grown, grown_grown.
    by rewrite <- names_under_app.
Qed.

Lemma get_zip_hash_dict_groups (a : archive) :
  ∃ d, get_zip_hash_dict a = Ok (d, length a)
       ∧ ∀ k, d !! k = index_of_items (zip_items a) k.
Proof.
  destruct (zip_hash_dict_from_groups a (namelist a) ∅ 0) as (d & Hd & Hk); [done|].
  exists d. unfold get_zip_hash_dict. rewrite Hd. split.
  - unfold namelist. by rewrite length_map.
  - intros k. rewrite Hk, lookup_empty. apply grown_None. exact [].
Qed.


(** The pass of [main] over the names of an archive always finishes. It
    counts the entries, and files every name of [namelist], in that order
    and as often as it is listed, under the digest of the bytes that [open]
    reads for the name: those of the last entry bearing it. *)
Theorem get_zip_hash_dict_groups_by_digest (zip_handler : archive) :
  ∃ zip_hash_dict,
    get_zip_hash_dict zip_handler = Ok (zip_hash_dict, length zip_handler)
    ∧ (∀ hash_value,
         zip_hash_dict !! hash_value = index_of_items (zip_items zip_handler) hash_value)
    ∧ (∀ name, name ∈ namelist zip_handler →
         ∃ before e after,
           zip_handler = before ++ e :: after ∧ ze_name e = name
           ∧ (name ∉ namelist after)
           ∧ hash_file_in_zip zip_handler name "sha1"
             = Ok (content_digest "sha1" (ze_data e))).
Proof.
  destruct (get_zip_hash_dict_groups zip_handler) as (d & Hd & Hk).
  exists d. do 2 (split; [done|]). intros name Hin.
  destruct (getinfo_last zip_handler name Hin) as (before & e & after & Heq & Hname & Hafter & Hget).
  exists before, e, after. do 3 (split; [done|]).
  rewrite hash_file_in_zip_listed by done. unfold data_in_zip. by rewrite Hget.
Qed.

(** The run of [get_hash_dict] on a list of files: when it returns, every
    file of the list is a regular file, and the dict files the relative
    names under the digests of the files, in the order of the list; a
    digest has a key exactly when some file has it. *)
Theorem get_hash_dict_groups_by_digest (fs : node) (file_list : list string)
    (root_dir : option string) (dir_flag : bool)
    (hash_dict : gmap string (list string)) :
  get_hash_dict fs file_list root_dir dir_flag = Ok hash_dict →
  ∃ items : list (string * string),
    Forall2 (λ file_path item,
               isfile fs file_path = true
               ∧ hash_file_at_path fs file_path "sha1" = Ok item.1
               ∧ rel_path_of file_path root_dir dir_flag = Ok item.2)
      file_list items
    ∧ ∀ hash_value, hash_dict !! hash_value = index_of_items items hash_value.
Proof.
  intros Hrun. apply get_hash_dict_from_groups in Hrun as (items & Hitems & Hd).
  exists (map (λ item, (content_digest "sha1" item.1, item.2)) items). split.
  - apply Forall2_fmap_r. eapply Forall2_impl; [done|].
    intros p [content rel] (Hfile & Hopen & Hrel). simpl in *.
    by rewrite (hash_file_at_path_content _ _ _ _ Hopen).
  - intros k. rewrite Hd, lookup_empty. apply grown_None. exact [].
Qed.

End ZipGroups.

(** ** The archive a run writes *)

Section Written.
Context `{Os} `{Hashlib}.



End Written.

Section Runs.
Context `{Os} `{Hashlib}.








End Runs.

Section RunTheorems.
Context {host : Os} {hashlib : Hashlib}.




End RunTheorems.



(** ** How a run ends *)

Section Endings.
Context {host : Os} {hashlib : Hashlib}.

Lemma get_missing_sources_spec (fs : node) (source_paths : list string) (p : string) :
  p ∈ get_missing_sources fs source_paths false
  ↔ p ∈ source_paths ∧ isfile fs p = false ∧ isdir fs p = false.
Proof.
  unfold get_missing_sources. rewrite list_elem_of_In, filter_In, <- list_elem_of_In.
  rewrite andb_true_iff, orb_false_r, !negb_true_iff. tauto.
Qed.

(** [main] returns before anything is created exactly when one of the
    input paths is neither a regular file nor a directory: a path that
    names nothing, or a pipe, a socket and the like. *)
Theorem main_stops_on_missing_sources (fuel : nat) (w : world) (args : Args)
    (run_time_str : string) :
  (∃ o, main fuel w args run_time_str = Some o ∧ ended o = MissingSources)
  ↔ ∃ source_path,
      source_path ∈ input_paths args
      ∧ isfile (tree w) source_path = false ∧ isdir (tree w) source_path = false.
Proof.
  unfold main. destruct (get_missing_sources _ _ _) as [|p l] eqn:Hmissing.
  - rewrite bool_decide_eq_true_2 by done. simpl. split.
    + intros (o & Ho & Hend).
      destruct (output_location _ _ _ _ _) as [[[out dir]|e]|]; try done.
      * injection Ho as <-. rewrite main_from_unfold in Hend.
        destruct (create_zip _ _ _ _ _ _ _) as [on_disk [[s n]|e]].
        -- destruct on_disk as [| |zh]; try done.
           destruct (get_zip_hash_dict_finishes zh) as [z Hz].
           rewrite (verify_unfold _ _ _ _ z _ (length zh)) in Hend by done.
           destruct (hashes_match _ _ _ _); [done|]. by destruct (creatable w _).
        -- by destruct on_disk, (creatable w _).
      * by injection Ho as <-.
    + intros (p & Hp). apply get_missing_sources_spec in Hp.
      rewrite Hmissing in Hp. by apply elem_of_nil in Hp.
  - rewrite bool_decide_eq_false_2 by done. simpl. split.
    + intros _. exists p. apply get_missing_sources_spec. rewrite Hmissing. by left.
    + intros _. by eexists.
Qed.

(** The ways [main] ends. It leaves an archive only when the run is
    verified, or when an exception escapes; it writes an error file only
    when it has removed the archive; and a verified run writes none. *)
Theorem main_leaves_archive_only_when_verified (fuel : nat) (w : world) (args : Args)
    (run_time_str : string) (o : outcome) :
  main fuel w args run_time_str = Some o →
  (ended o = Verified ∧ (∃ zip_handler, archive_left o = Written zip_handler)
   ∧ error_file o = None)
  ∨ (ended o = MissingSources ∧ archive_left o = Absent ∧ error_file o = None)
  ∨ (∃ e path, ended o = CreationFailed e ∧ archive_left o = Absent
               ∧ error_file o = Some (path, ExceptionLog e))
  ∨ (∃ path lines, ended o = FailedVerification ∧ archive_left o = Absent
                   ∧ error_file o = Some (path, MismatchLog lines))
  ∨ (∃ e, ended o = Uncaught e ∧ error_file o = None ∧ exit_status o = 1%Z).
Proof.
  unfold main. destruct (negb _); [intros [= <-]; right; left; done|].
  destruct (output_location _ _ _ _ _) as [[[out dir]|e]|]; [| |done].
  - intros [= <-]. rewrite main_from_unfold.
    destruct (create_zip _ _ _ _ _ _ _) as [on_disk [[s n]|e]].
    + destruct on_disk as [| |zh].
      * do 4 right. by eexists.
      * do 4 right. by eexists.
      * destruct (get_zip_hash_dict_finishes zh) as [z Hz].
        rewrite (verify_unfold _ _ _ _ z _ (length zh)) by done.
        destruct (hashes_match _ _ _ _); [left; eauto|].
        destruct (creatable w _).
        -- do 3 right. left. by do 2 eexists.
        -- do 4 right. by eexists.
    + destruct (creatable w _).
      * do 2 right. left. destruct on_disk; by do 2 eexists.
      * do 4 right. destruct on_disk; by eexists.
  - intros [= <-]. do 4 right. by eexists.
Qed.

(** When the error file cannot be created, the exception of that attempt
    escapes [main]: the archive that failed, or the part of it that was
    written, stays where it is, and the exit status is 1. *)
Theorem unwritable_error_file_keeps_archive (w : world) (args : Args)
    (inputs : list string)
    (output_path output_directory run_time_str path_separator : string) :
  creatable w (error_log_file_path_of output_directory run_time_str) = false →
  (∀ on_disk e,
     create_zip w output_path inputs (ignore_dotfiles args)
       (ignore_windows_volume_folders args) (root_directory args) path_separator
     = (on_disk, Raise e) →
     main_from w args inputs output_path output_directory run_time_str path_separator
     = Outcome (Uncaught (IOError (error_log_file_path_of output_directory run_time_str)))
         on_disk None)
  ∧ (∀ zip_handler file_hash_dict total_file_count,
       create_zip w output_path inputs (ignore_dotfiles args)
         (ignore_windows_volume_folders args) (root_directory args) path_separator
       = (Written zip_handler, Ok (file_hash_dict, total_file_count)) →
       get_zip_hash_dict zip_handler ≠ Ok (file_hash_dict, total_file_count) →
       main_from w args inputs output_path output_directory run_time_str path_separator
       = Outcome
           (Uncaught (IOError (error_log_file_path_of output_directory run_time_str)))
           (Written zip_handler) None).
Proof.
  intros Hcreate. split.
  - intros on_disk e Hzip. rewrite main_from_unfold, Hzip. cbv beta iota.
    rewrite Hcreate. by destruct on_disk.
  - intros zh s n Hzip Hne. rewrite main_from_unfold, Hzip. cbv beta iota.
    destruct (get_zip_hash_dict_finishes zh) as [z Hz].
    rewrite (verify_unfold _ _ _ _ z _ (length zh)) by done.
    destruct (hashes_match _ _ _ _) eqn:Hm.
    + apply hashes_match_true in Hm as [-> ->]. done.
    + by rewrite Hcreate.
Qed.

(** The lines of the mismatch report: one for every digest of the source
    dict that the archive dict lacks, one for every digest whose two lists
    differ in more than their order, and no other. The report is empty
    exactly when the archive dict has every digest of the source dict with
    the same names up to their order. *)
Theorem mismatch_report_lines (file_hash_dict zip_hash_dict : gmap string (list string)) :
  (∀ l, l ∈ mismatch_lines file_hash_dict zip_hash_dict
        ↔ ∃ hash_value file_paths,
            file_hash_dict !! hash_value = Some file_paths
            ∧ ((zip_hash_dict !! hash_value = None
                ∧ l = HashNotPresent hash_value file_paths)
               ∨ (∃ zip_file_paths,
                    zip_hash_dict !! hash_value = Some zip_file_paths
                    ∧ ¬ file_paths ≡ₚ zip_file_paths
                    ∧ l = FilesDoNotMatch hash_value file_paths zip_file_paths)))
  ∧ (mismatch_lines file_hash_dict zip_hash_dict = []
     ↔ ∀ hash_value file_paths,
         file_hash_dict !! hash_value = Some file_paths →
         ∃ zip_file_paths,
           zip_hash_dict !! hash_value = Some zip_file_paths
           ∧ file_paths ≡ₚ zip_file_paths).
Proof.
  assert (∀ l, l ∈ mismatch_lines file_hash_dict zip_hash_dict
        ↔ ∃ hash_value file_paths,
            file_hash_dict !! hash_value = Some file_paths
            ∧ ((zip_hash_dict !! hash_value = None
                ∧ l = HashNotPresent hash_value file_paths)
               ∨ (∃ zip_file_paths,
                    zip_hash_dict !! hash_value = Some zip_file_paths
                    ∧ ¬ file_paths ≡ₚ zip_file_paths
                    ∧ l = FilesDoNotMatch hash_value file_paths zip_file_paths)))
    as Hlines.
  { intros l. unfold mismatch_lines. rewrite list_elem_of_omap. split.
    - intros ([hv paths] & Hitem%elem_of_map_to_list & Hline).
      exists hv, paths. split; [done|]. unfold mismatch_line in Hline.
      destruct (zip_hash_dict !! hv) as [zp|]; [|left; by injection Hline].
      right. exists zp. split; [done|]. case_bool_decide as Hs; [|done].
      split; [by rewrite <- sorted_eq_iff|by injection Hline].
    - intros (hv & paths & Hsrc & Hcase). exists (hv, paths).
      split; [by apply elem_of_map_to_list|]. unfold mismatch_line.
      destruct Hcase as [[-> ->]|(zp & -> & Hperm & ->)]; [done|].
      rewrite bool_decide_eq_true_2; [done|]. by rewrite sorted_eq_iff. }
  split; [done|]. split.
  - intros Hnil hv paths Hsrc.
    destruct (zip_hash_dict !! hv) as [zp|] eqn:Hzip.
    + exists zp. split; [done|].
      destruct (decide (paths ≡ₚ zp)) as [|Hperm]; [done|].
      assert (FilesDoNotMatch hv paths zp ∈ mismatch_lines file_hash_dict zip_hash_dict)
        as Hin by (apply Hlines; exists hv, paths; eauto 10).
      rewrite Hnil in Hin. by apply elem_of_nil in Hin.
    + assert (HashNotPresent hv paths ∈ mismatch_lines file_hash_dict zip_hash_dict)
        as Hin by (apply Hlines; exists hv, paths; eauto 10).
      rewrite Hnil in Hin. by apply elem_of_nil in Hin.
  - intros Hall. destruct (mismatch_lines _ _) as [|l ls] eqn:Hl; [done|].
    destruct (proj1 (Hlines l)) as (hv & paths & Hsrc & Hcase);
      [apply elem_of_cons; by left|].
    destruct (Hall hv paths Hsrc) as (zp & Hzip & Hperm).
    destruct Hcase as [[Hnone _]|(zp' & Hzip' & Hnot & _)]; [congruence|].
    rewrite Hzip in Hzip'. injection Hzip' as <-. done.
Qed.

End Endings.

(** ** More on the enumeration *)

Section EnumerationOrder.
Context {host : Os}.

Lemma walk_paths_each (fs : node) (igd igv : bool) (paths files : list string)
    (size : nat) (path : string) :
  walk_paths fs igd igv paths = Ok (files, size) → path ∈ paths →
  ∃ n sub_files sub_size,
    path_lookup fs path = Some n ∧ walk igd igv path n = Ok (sub_files, sub_size).
Proof.
  revert files size. induction paths as [|pa l IH]; intros files size Hwalk Hin;
    [by apply elem_of_nil in Hin|].
  cbn [walk_paths] in Hwalk.
  destruct (path_lookup fs pa) as [m|] eqn:Hlook; [|done].
  destruct (walk igd igv pa m) as [[sf ss]|] eqn:Hw; [|done].
  cbn [mbind result_bind] in Hwalk.
  destruct (walk_paths fs igd igv l) as [[? ?]|]; [|done].
  apply elem_of_cons in Hin as [->|Hin]; [eauto|by eapply IH].
Qed.

(** The files found when entries are left out are among the files found
    when none is: the flags take files away and add none. *)
Theorem ignore_flags_only_remove (fs : node) (paths : list string)
    (ignore_dotfiles ignore_windows_volume_folders : bool)
    (files all_files : list string) (size all_size : nat) :
  get_file_paths_and_size fs paths ignore_dotfiles ignore_windows_volume_folders
  = Ok (files, size) →
  get_file_paths_and_size fs paths false false = Ok (all_files, all_size) →
  files ⊆ all_files.
Proof.
  unfold get_file_paths_and_size. intros Hrun Hall.
  destruct (walk_paths fs ignore_dotfiles _ (sorted paths)) as [[found size']|e] eqn:Hwalk;
    [|done].
  destruct (walk_paths fs false false (sorted paths)) as [[found' size'']|e] eqn:Hwalk';
    [|done].
  cbn [mbind result_bind] in *. injection Hrun as <- <-. injection Hall as <- <-.
  intros p. rewrite !sorted_elem_of.
  rewrite (walk_paths_files _ _ _ _ _ _ p Hwalk), (walk_paths_files _ _ _ _ _ _ p Hwalk').
  intros (path & n & sf & ss & Hin & Hlook & Hw & Hp).
  destruct (walk_paths_each _ _ _ _ _ _ path Hwalk' Hin) as (n' & sf' & ss' & Hlook' & Hw').
  rewrite Hlook in Hlook'. injection Hlook' as <-.
  exists path, n, sf', ss'. do 3 (split; [done|]).
  apply (walk_files _ _ _ _ _ _ p Hw) in Hp as (names & Hleads & -> & _).
  apply (walk_files _ _ _ _ _ _ _ Hw'). by exists names.
Qed.

(** The list of files comes back in ascending order, and neither the list
    nor the size depends on the order in which the paths were given. *)
Theorem enumeration_is_sorted (fs : node) (paths paths' : list string)
    (ignore_dotfiles ignore_windows_volume_folders : bool) :
  (∀ files size,
     get_file_paths_and_size fs paths ignore_dotfiles ignore_windows_volume_folders
     = Ok (files, size) →
     StronglySorted str_le files)
  ∧ (paths ≡ₚ paths' →
     get_file_paths_and_size fs paths ignore_dotfiles ignore_windows_volume_folders
     = get_file_paths_and_size fs paths' ignore_dotfiles ignore_windows_volume_folders).
Proof.
  split.
  - intros files size Hrun. unfold get_file_paths_and_size in Hrun.
    destruct (walk_paths _ _ _ _) as [[found size']|e]; [|done].
    cbn [mbind result_bind] in Hrun. injection Hrun as <- <-.
    apply sorted_StronglySorted.
  - intros Hperm. unfold get_file_paths_and_size.
    by rewrite (proj2 (sorted_eq_iff paths paths') Hperm).
Qed.

End EnumerationOrder.

(** ** Clean absolute paths in a tree *)

Module tree_facts.
Import posixpath posix_facts component_facts relative_name_facts.





Lemma absolute_path_inj (cs cs' : list string) :
  Forall clean_name cs → Forall clean_name cs' →
  absolute_path cs = absolute_path cs' → cs = cs'.
Proof.
  intros Hcs Hcs' Heq.
  by rewrite <- (parts_absolute_path "" cs), <- (parts_absolute_path "" cs'), Heq.
Qed.



Lemma entry_elem_of (name : string) (child : node) (entries : list (string * node)) :
  entry name entries = Some child → (name, child) ∈ entries.
Proof.
  induction entries as [|[nm ch] entries IH]; [done|]. simpl.
  destruct (String.eqb_spec nm name) as [->|].
  - intros [= ->]. by left.
  - intros Hin. right. by apply IH.
Qed.


Lemma descend_app (n : node) (a b : list string) :
  descend n (a ++ b) = descend n a ≫= λ m, descend m b.
Proof.
  revert n. induction a as [|c a IH]; intros n; [done|]. simpl.
  destruct n as [| |listable entries]; try done.
  destruct (entry c entries); [apply IH|done].
Qed.


End tree_facts.

(** ** Runs on a regular tree *)


Section WalkRegular.
Context {host : Os}.



End WalkRegular.

Module posix_run_facts.
Import posixpath posix_facts component_facts relative_name_facts tree_facts.

Section PosixRun.
Context (system : string) (xpc : option string) (cwd : string) {hashlib : Hashlib}.
Hypothesis not_windows : system ≠ "Windows".
Let host : Os := posix_host system xpc cwd.
#[local] Existing Instance host.













End PosixRun.
End posix_run_facts.

Module root_facts.
Import posixpath posix_facts component_facts relative_name_facts tree_facts.



End root_facts.


(** ** Names in a directory *)

Module lookup_facts.
Import posixpath posix_facts component_facts relative_name_facts tree_facts.

Lemma split_go_all_no_sep (s : string) : Forall (λ c, no_sep c) (split_go "/" 0 s).
Proof.
  induction s as [|a t IH]; [by repeat constructor|]. rewrite split_go_cons.
  destruct (Ascii.eqb a sep) eqn:Ha; [by constructor|].
  destruct (split_go "/" 0 t) as [|w ws]; [by repeat constructor; simpl; rewrite Ha|].
  apply Forall_cons in IH as [Hw Hws]. constructor; [|done]. simpl. by rewrite Ha.
Qed.

Lemma no_sep_not_ending (c : string) : no_sep c → endswith_char c sep = false.
Proof.
  induction c as [|a c IH]; [done|]. simpl. intros [Ha Hc]%orb_false_iff.
  destruct c as [|b c]; [done|]. by apply IH.
Qed.

(** A string that is empty or ends with a slash splits into components
    the last of which is empty. *)
Lemma split_go_ends_empty (q : string) :
  q = "" ∨ endswith_char q sep = true →
  ∃ front, split_go "/" 0 q = front ++ [""].
Proof.
  intros Hq. pose proof (str_join_split_go "/" q ltac:(done)) as Hjoin.
  pose proof (split_go_all_no_sep q) as Hnosep.
  pose proof (split_go_nonempty "/" 0 q) as Hne.
  destruct (split_go "/" 0 q) as [|l front _] using rev_ind; [done|].
  exists front. f_equal. f_equal.
  apply Forall_app in Hnosep as [_ [Hl _]%Forall_cons].
  rewrite str_join_snoc in Hjoin. destruct Hq as [->|Hend].
  - destruct front as [|c front]; [done|]. by apply app_eq_empty in Hjoin as [_ [? _]%app_eq_empty].
  - destruct l as [|a l]; [done|]. exfalso. rewrite <- Hjoin in Hend.
    pose proof (no_sep_not_ending _ Hl) as Hl'.
    destruct front as [|c front]; [congruence|].
    rewrite <- app_assoc_str, endswith_char_app in Hend by done. congruence.
Qed.

Lemma split_go_app_name (q name : string) :
  q = "" ∨ endswith_char q sep = true → no_sep name →
  ∃ front, split_go "/" 0 q = front ++ [""]
           ∧ split_go "/" 0 (q +:+ name) = front ++ [name].
Proof.
  intros Hq Hname. destruct (split_go_ends_empty q Hq) as [front Hfront].
  exists front. split; [done|].
  pose proof (str_join_split_go "/" q ltac:(done)) as Hjoin.
  pose proof (split_go_all_no_sep q) as Hnosep.
  rewrite Hfront in Hjoin, Hnosep. apply Forall_app in Hnosep as [Hnosep _].
  assert (q +:+ name = str_join "/" (front ++ [name])) as ->.
  { rewrite <- Hjoin, !str_join_snoc. destruct front as [|c front]; [done|].
    by rewrite !app_assoc_str. }
  apply split_go_str_join; [|by destruct front].
  apply Forall_app. split; [done|]. by constructor.
Qed.

(** A pattern of slashes begins [q +:+ name] exactly when it begins [q]. *)
Lemma startswith_slashes (pat q name : string) :
  all_sep pat = true → startswith name "/" = false →
  startswith (q +:+ name) pat = startswith q pat.
Proof.
  intros Hpat Hname. revert q. induction pat as [|p pat IH]; intros q.
  - unfold startswith. destruct q as [|b q]; [by destruct name|done].
  - simpl in Hpat. apply andb_true_iff in Hpat as [->%Ascii.eqb_eq Hpat].
    destruct q as [|b q].
    + rewrite app_empty_l. destruct name as [|a name]; [done|].
      rewrite startswith_sep in Hname. by rewrite startswith_cons, Hname.
    + rewrite app_String, !startswith_cons. by rewrite IH.
Qed.

Lemma normpath_step_plain (k : nat) (acc : list string) (c : string) :
  plain_name c → normpath_step k acc c = acc ++ [c].
Proof.
  intros (H1 & H2 & H3 & _). unfold normpath_step.
  rewrite (proj2 (String.eqb_neq _ _) H1), (proj2 (String.eqb_neq _ _) H2),
    (proj2 (String.eqb_neq _ _) H3). done.
Qed.

(** The components [normpath] keeps are not empty and hold no slash. *)
Lemma normpath_fold_keeps (k : nat) (comps acc : list string) :
  Forall (λ c, no_sep c) comps → Forall (λ c, c ≠ "" ∧ no_sep c) acc →
  Forall (λ c, c ≠ "" ∧ no_sep c) (fold_left (normpath_step k) comps acc).
Proof.
  revert acc. induction comps as [|c comps IH]; intros acc Hcomps Hacc; [done|].
  apply Forall_cons in Hcomps as [Hc Hcomps]. cbn [fold_left]. apply IH; [done|].
  unfold normpath_step. destruct (String.eqb_spec c "") as [|Hne]; [done|].
  cbn [orb]. destruct (String.eqb c "."); [done|].
  destruct (_ || _).
  - apply Forall_app. split; [done|]. by constructor.
  - rewrite removelast_firstn_len. by apply Forall_take.
Qed.

Lemma str_join_snoc_not_empty (cs : list string) (c : string) :
  c ≠ "" → str_join "/" (cs ++ [c]) ≠ "".
Proof.
  intros Hc. rewrite str_join_snoc. destruct cs as [|c' cs]; [done|].
  by intros [_ [_ ?]%app_eq_empty]%app_eq_empty.
Qed.

(** [normpath] of a path that is [q] followed by a plain name, where [q]
    is empty or ends with a slash. *)
Lemma normpath_app_name (q : string) :
  q = "" ∨ endswith_char q sep = true →
  ∃ (k : nat) (kept : list string),
    k ≤ 2 ∧ Forall (λ c, c ≠ "" ∧ no_sep c) kept
    ∧ ∀ name, plain_name name →
        normpath (q +:+ name)
        = String.concat "" (replicate k "/") +:+ str_join "/" (kept ++ [name]).
Proof.
  intros Hq. destruct (split_go_ends_empty q Hq) as [front Hfront].
  set (k := if startswith q "/"
            then if startswith q "//" && negb (startswith q "///") then 2 else 1
            else 0).
  exists k, (fold_left (normpath_step k) front []). split; [|split].
  - unfold k. by repeat destruct (startswith q _); simpl; lia.
  - apply normpath_fold_keeps; [|done].
    pose proof (split_go_all_no_sep q) as Hall. rewrite Hfront in Hall.
    by apply Forall_app in Hall as [? _].
  - intros name Hname. pose proof Hname as (Hne & _ & _ & Hsep).
    pose proof (no_sep_startswith name Hsep) as Hstart.
    unfold normpath.
    assert (String.eqb (q +:+ name) "" = false) as ->.
    { apply String.eqb_neq. by intros [_ ?]%app_eq_empty. }
    rewrite !startswith_slashes by done. fold k.
    destruct (split_go_app_name q name Hq Hsep) as (front' & Hfront' & ->).
    rewrite Hfront in Hfront'. apply app_inj_tail in Hfront' as [<- _].
    rewrite fold_left_app. cbn [fold_left]. rewrite normpath_step_plain by done.
    destruct (String.eqb_spec
                (String.concat "" (replicate k "/")
                 +:+ str_join "/" (fold_left (normpath_step k) front [] ++ [name])) "")
      as [Hempty|]; [|done].
    apply app_eq_empty in Hempty as [_ Hempty].
    by apply str_join_snoc_not_empty in Hempty.
Qed.

Lemma plain_name_no_sep (cs : list string) :
  Forall (λ c, c ≠ "" ∧ no_sep c) cs → Forall (λ c, no_sep c) cs.
Proof. intros Hcs. eapply Forall_impl; [done|]. by intros c [_ ?]. Qed.

(** The path that [abspath] normalises for [join d name]: what comes
    before the name does not depend on the name. *)
Lemma abspath_join_name (cwd d : string) :
  ∃ q, (q = "" ∨ endswith_char q sep = true)
       ∧ ∀ name, plain_name name →
           join d name ≠ ""
           ∧ (if isabs (join d name) then join d name else join cwd (join d name))
             = q +:+ name.
Proof.
  assert (∃ d0, (d0 = "" ∨ endswith_char d0 sep = true)
                ∧ ∀ name, plain_name name → join d name = d0 +:+ name)
    as (d0 & Hd0 & Hjoin).
  { destruct (String.eqb d "" || endswith_char d sep) eqn:Hd.
    - exists d. split.
      + apply orb_true_iff in Hd as [->%String.eqb_eq|?]; auto.
      + intros name (_ & _ & _ & Hsep). by rewrite join_no_sep, Hd.
    - exists (d +:+ "/"). split; [right; apply endswith_char_app_char|].
      intros name (_ & _ & _ & Hsep). by rewrite join_no_sep, Hd, app_assoc_str. }
  assert (∀ name, plain_name name → startswith (d0 +:+ name) "/" = startswith d0 "/")
    as Habs.
  { intros name (_ & _ & _ & Hsep). apply startswith_slashes; [done|].
    by apply no_sep_startswith. }
  destruct (startswith d0 "/") eqn:Hstart.
  - exists d0. split; [done|]. intros name Hname. rewrite (Hjoin name Hname).
    split; [destruct Hname as (? & _); by intros [_ ?]%app_eq_empty|].
    unfold isabs. by rewrite Habs.
  - destruct (String.eqb cwd "" || endswith_char cwd sep) eqn:Hcwd.
    + exists (cwd +:+ d0). split.
      * destruct Hd0 as [->|Hend].
        -- rewrite app_empty_r. apply orb_true_iff in Hcwd as [->%String.eqb_eq|?]; auto.
        -- right. rewrite endswith_char_app; [done|]. intros ->. done.
      * intros name Hname. rewrite (Hjoin name Hname).
        split; [destruct Hname as (? & _); by intros [_ ?]%app_eq_empty|].
        unfold isabs. rewrite Habs by done. unfold join.
        rewrite Habs, Hcwd by done. by rewrite app_assoc_str.
    + exists (cwd +:+ "/" +:+ d0). split.
      * right. destruct Hd0 as [->|Hend].
        -- rewrite app_empty_r. apply endswith_char_app_char.
        -- rewrite <- app_assoc_str, endswith_char_app; [done|]. intros ->. done.
      * intros name Hname. rewrite (Hjoin name Hname).
        split; [destruct Hname as (? & _); by intros [_ ?]%app_eq_empty|].
        unfold isabs. rewrite Habs by done. unfold join.
        rewrite Habs, Hcwd by done. by rewrite !app_assoc_str.
Qed.

(** The components of [join d name]: those of the directory, then the
    name. *)
Lemma parts_join_name (cwd d : string) :
  ∃ dir_parts, ∀ name, plain_name name →
    join d name ≠ "" ∧ parts cwd (join d name) = dir_parts ++ [name].
Proof.
  destruct (abspath_join_name cwd d) as (q & Hq & Hpath).
  destruct (normpath_app_name q Hq) as (k & kept & Hk & Hkept & Hnorm).
  exists kept. intros name Hname. destruct (Hpath name Hname) as [Hne Heq].
  split; [done|]. unfold parts, abspath. rewrite Heq, (Hnorm name Hname).
  assert (split_go "/" 0 (str_join "/" (kept ++ [name])) = kept ++ [name]) as Hsplit.
  { apply split_go_str_join; [|by destruct kept].
    apply Forall_app. split; [by apply plain_name_no_sep|].
    constructor; [|done]. by destruct Hname as (_ & _ & _ & ?). }
  assert (filter (λ x, x ≠ "") (kept ++ [name]) = kept ++ [name]) as Hfilter.
  { apply filter_nonempty_id, Forall_app. split.
    - eapply Forall_impl; [done|]. by intros c [? _].
    - constructor; [|done]. by destruct Hname as (? & _). }
  destruct k as [|[|[|k]]]; [| | |lia]; cbn [replicate String.concat].
  - by rewrite app_empty_l, Hsplit.
  - change ("/" +:+ ?s) with (String "/" s).
    rewrite split_go_cons. change (Ascii.eqb "/" sep) with true. cbv iota.
    rewrite Hsplit. by rewrite filter_cons_False by (intros H; by apply H).
  - change (("/" +:+ "" +:+ "/") +:+ ?s) with (String "/" (String "/" s)).
    rewrite !split_go_cons. change (Ascii.eqb "/" sep) with true. cbv iota.
    rewrite Hsplit. by rewrite !filter_cons_False by (intros H; by apply H).
Qed.

(** What a path [join d name] names: the entry [name] of the directory
    that [d] names, if there is such a directory. *)
Lemma lookup_join_name (cwd : string) (fs : node) (d : string) :
  ∃ dir : option node, ∀ name, plain_name name →
    lookup cwd fs (join d name)
    = match dir with
      | Some (Dir _ entries) => entry name entries
      | _ => None
      end.
Proof.
  destruct (parts_join_name cwd d) as [dir_parts Hparts].
  exists (descend fs dir_parts). intros name Hname.
  destruct (Hparts name Hname) as [Hne Heq]. unfold lookup.
  rewrite (proj2 (String.eqb_neq _ _) Hne), Heq, descend_app.
  destruct (descend fs dir_parts) as [[| |listable entries]|]; try done.
  simpl. by destruct (entry name entries).
Qed.

End lookup_facts.

(** ** The search for a safe path ends *)

Lemma str_of_nat_inj (n m : nat) : str_of_nat n = str_of_nat m → n = m.
Proof.
  unfold str_of_nat. intros Heq.
  assert (Nat.to_uint n = Nat.to_uint m) as Huint.
  { apply (f_equal NilEmpty.uint_of_string) in Heq. rewrite !NilEmpty.usu in Heq.
    by injection Heq. }
  by rewrite <- (Unsigned.of_to n), <- (Unsigned.of_to m), Huint.
Qed.

Lemma app_inv_head_str (s a b : string) : s +:+ a = s +:+ b → a = b.
Proof. induction s as [|c s IH]; [done|]. rewrite !app_String. intros [= ?]. auto. Qed.

Lemma app_inv_tail_str (a b e : string) : a +:+ e = b +:+ e → a = b.
Proof.
  intros Heq.
  assert (String.length a = String.length b) as Hlen.
  { apply (f_equal String.length) in Heq. rewrite !length_app_str in Heq. lia. }
  revert b Heq Hlen. induction a as [|c a IH]; intros [|c' b] Heq Hlen; try done.
  rewrite !app_String in Heq. injection Heq as -> Heq. f_equal. apply IH; [done|].
  simpl in Hlen. lia.
Qed.

(** Among more names than a list holds, all different, one is not in the
    list. *)
Lemma fresh_among (f : nat → string) (l : list string) :
  (∀ i j, f i = f j → i = j) → ∃ k, k ≤ length l ∧ f k ∉ l.
Proof.
  intros Hinj.
  destruct (decide (Forall (λ k, f k ∈ l) (seq 0 (S (length l))))) as [Hall|Hnot].
  - exfalso. rewrite Forall_forall in Hall.
    assert (NoDup (f <$> seq 0 (S (length l)))) as Hnd.
    { apply NoDup_fmap_2; [intros i j; apply Hinj|apply NoDup_seq]. }
    assert (f <$> seq 0 (S (length l)) ⊆+ l) as Hsub.
    { apply NoDup_submseteq; [done|]. intros x (k & -> & Hk)%list_elem_of_fmap. auto. }
    apply submseteq_length in Hsub. rewrite length_fmap, length_seq in Hsub. lia.
  - apply not_Forall_Exists in Hnot; [|apply _].
    apply Exists_exists in Hnot as (k & Hk & Hfree).
    exists k. split; [|done]. apply elem_of_seq in Hk. lia.
Qed.

(** The least number with a decidable property, below one that has it. *)
Lemma least_with (P : nat → bool) (n : nat) :
  P n = false → ∃ k, k ≤ n ∧ P k = false ∧ ∀ i, i < k → P i = true.
Proof.
  induction n as [n IH] using lt_wf_ind. intros Hn.
  destruct (decide (Forall (λ i, P i = true) (seq 0 n))) as [Hall|Hnot].
  - exists n. split; [done|]. split; [done|]. intros i Hi.
    rewrite Forall_forall in Hall. apply Hall, elem_of_seq. lia.
  - apply not_Forall_Exists in Hnot; [|apply _].
    apply Exists_exists in Hnot as (m & Hm & Hfree). apply elem_of_seq in Hm.
    destruct (IH m) as (k & Hk & Hfreek & Hleast);
      [lia|simpl in Hfree; by destruct (P m)|].
    exists k. split; [lia|done].
Qed.

Module safe_name_facts.
Import posixpath posix_facts lookup_facts safe_path_facts.

Lemma safe_name_plain (file_path : string) (suffix : nat) :
  plain_name (safe_name file_path suffix).
Proof.
  destruct (candidate_name_facts file_path suffix) as [Hsep _]. cbn zeta in Hsep.
  assert (contains_char "_" (safe_name file_path suffix) = true) as Hunder.
  { unfold safe_name. rewrite !contains_char_app. cbn [contains_char Ascii.eqb].
    by rewrite orb_true_r. }
  repeat split; [..|done]; intros Heq; by rewrite Heq in Hunder.
Qed.

Lemma safe_name_inj (file_path : string) (n m : nat) :
  safe_name file_path n = safe_name file_path m → n = m.
Proof.
  unfold safe_name. intros Heq%app_inv_head_str%app_inv_head_str%app_inv_tail_str.
  by apply str_of_nat_inj.
Qed.

Lemma safe_path_candidate_S (file_path : string) (i : nat) :
  safe_path_candidate file_path (S i)
  = join (dirname file_path) (safe_name file_path (S (S i))).
Proof. reflexivity. Qed.

End safe_name_facts.

(** Among the paths the search tries, on a POSIX host, there is a first
    one at which no file exists: they have different names in one
    directory, which holds only so many files. *)
Lemma first_free_candidate (system : string) (xpc : option string) (cwd : string)
    (fs : node) (file_path : string) :
  ∃ k,
    @isfile (posix_host system xpc cwd) fs (safe_path_candidate file_path k) = false
    ∧ ∀ i, i < k →
        @isfile (posix_host system xpc cwd) fs (safe_path_candidate file_path i) = true.
Proof.
  destruct (lookup_facts.lookup_join_name cwd fs (posixpath.dirname file_path))
    as [dir Hdir].
  set (names := match dir with
                | Some (Dir _ entries) => map fst entries
                | _ => []
                end).
  destruct (fresh_among (λ i, safe_name file_path (S (S i))) names) as (j & _ & Hfresh).
  { intros i i' Heq%safe_name_facts.safe_name_inj. lia. }
  assert (@isfile (posix_host system xpc cwd) fs (safe_path_candidate file_path (S j))
          = false) as Hfree.
  { unfold isfile. cbn [path_lookup posix_host].
    rewrite safe_name_facts.safe_path_candidate_S,
      (Hdir _ (safe_name_facts.safe_name_plain file_path (S (S j)))).
    destruct dir as [[| |listable entries]|]; try done.
    destruct (posixpath.entry _ entries) as [child|] eqn:Hentry; [|done].
    exfalso. apply Hfresh. apply tree_facts.entry_elem_of in Hentry.
    apply list_elem_of_fmap. by exists (safe_name file_path (S (S j)), child). }
  destruct (least_with
              (λ i, @isfile (posix_host system xpc cwd) fs
                      (safe_path_candidate file_path i)) (S j) Hfree)
    as (k & _ & Hk & Hleast).
  by exists k.
Qed.


(** On a POSIX host the search of [get_safe_file_path] ends, whatever the
    tree and the path: there is a first path, among the requested one and
    the ones with [_2], [_3], ... before the extension, at which no file
    exists, and the loop returns it as soon as the fuel reaches that far.
    The paths tried have different names in one directory, which holds
    only so many files. *)
Theorem get_safe_file_path_terminates (system : string) (xpc : option string)
    (cwd : string) (fs : node) (file_path : string) :
  ∃ k,
    @isfile (posix_host system xpc cwd) fs (safe_path_candidate file_path k) = false
    ∧ (∀ i, i < k →
         @isfile (posix_host system xpc cwd) fs (safe_path_candidate file_path i) = true)
    ∧ ∀ fuel, k < fuel →
        @get_safe_file_path (posix_host system xpc cwd) fuel fs file_path
        = Some (safe_path_candidate file_path k).
Proof.
  destruct (first_free_candidate system xpc cwd fs file_path) as (k & Hk & Hleast).
  exists k. do 2 (split; [done|]). intros fuel Hfuel. unfold get_safe_file_path.
  apply (get_safe_file_path_loop_first_free (host := posix_host system xpc cwd) fs _
           (safe_path_candidate file_path) k); try done; try lia.
  - intros i. apply safe_path_facts.safe_path_candidate_step.
  - intros i Hi. apply Hleast. lia.
Qed.




(** The run of that witness: the two inputs share [/d], and the names are
    taken below it, under the folder [d]; the archive goes to the default
    path in the working directory. *)
Example two_inputs_example_run :
  @main linux hashlib_sha1 1 (writable with_hidden)
    {| input_paths := ["/d/sub"; "/d/keep.txt"]; output_path := None;
       root_directory := true; ignore_dotfiles := false;
       ignore_windows_volume_folders := true |} "ts"
  = Some (Outcome Verified
            (Written [ZipEntry "d/sub/deep.txt" hi; ZipEntry "d/keep.txt" hi]) None).
Proof. compute_done. Qed.

Lemma get_hash_dict_groups_by_digest_witness :
  ∃ items : list (string * string),
    Forall2 (λ file_path item,
               @isfile linux two_copies file_path = true
               ∧ @hash_file_at_path linux hashlib_sha1 two_copies file_path "sha1"
                 = Ok item.1
               ∧ @rel_path_of linux file_path (Some "/a") false = Ok item.2)
      ["/a/x.txt"; "/a/y.txt"] items
    ∧ ∀ hash_value,
        ({[ sha1_hi := ["x.txt"; "y.txt"] ]} : gmap string (list string)) !! hash_value
        = index_of_items items hash_value.
Proof.
  apply (@get_hash_dict_groups_by_digest linux hashlib_sha1 two_copies
           ["/a/x.txt"; "/a/y.txt"] (Some "/a") false).
  compute_done.
Defined.

Lemma main_leaves_archive_only_when_verified_witness :
  let o := Outcome (CreationFailed (IOError (not_regular_file_message "/a/pipe"))) Absent
             (Some ("/ts_verizip_error.txt",
                    ExceptionLog (IOError (not_regular_file_message "/a/pipe")))) in
  (ended o = Verified ∧ (∃ zip_handler, archive_left o = Written zip_handler)
   ∧ error_file o = None)
  ∨ (ended o = MissingSources ∧ archive_left o = Absent ∧ error_file o = None)
  ∨ (∃ e path, ended o = CreationFailed e ∧ archive_left o = Absent
               ∧ error_file o = Some (path, ExceptionLog e))
  ∨ (∃ path lines, ended o = FailedVerification ∧ archive_left o = Absent
                   ∧ error_file o = Some (path, MismatchLog lines))
  ∨ (∃ e, ended o = Uncaught e ∧ error_file o = None ∧ exit_status o = 1%Z).
Proof.
  apply (@main_leaves_archive_only_when_verified linux hashlib_sha1 0
           (writable with_pipe) archive_a "ts").
  compute_done.
Defined.

Lemma unwritable_error_file_keeps_archive_witness :
  (∀ on_disk e,
     @create_zip linux hashlib_sha1 (only_archive_creatable with_pipe) "/out.zip" ["/a"]
       (ignore_dotfiles archive_a) (ignore_windows_volume_folders archive_a)
       (root_directory archive_a) "/"
     = (on_disk, Raise e) →
     @main_from linux hashlib_sha1 (only_archive_creatable with_pipe) archive_a ["/a"]
       "/out.zip" "/" "ts" "/"
     = Outcome (Uncaught (IOError (@error_log_file_path_of linux "/" "ts"))) on_disk None)
  ∧ (∀ zip_handler file_hash_dict total_file_count,
       @create_zip linux hashlib_sha1 (only_archive_creatable with_pipe) "/out.zip"
         ["/a"] (ignore_dotfiles archive_a) (ignore_windows_volume_folders archive_a)
         (root_directory archive_a) "/"
       = (Written zip_handler, Ok (file_hash_dict, total_file_count)) →
       get_zip_hash_dict zip_handler ≠ Ok (file_hash_dict, total_file_count) →
       @main_from linux hashlib_sha1 (only_archive_creatable with_pipe) archive_a ["/a"]
         "/out.zip" "/" "ts" "/"
       = Outcome (Uncaught (IOError (@error_log_file_path_of linux "/" "ts")))
           (Written zip_handler) None).
Proof.
  apply (@unwritable_error_file_keeps_archive linux hashlib_sha1
           (only_archive_creatable with_pipe) archive_a ["/a"] "/out.zip" "/" "ts" "/").
  reflexivity.
Defined.

(** The run of that witness: the pipe stops [create_zip], the error file
    cannot be created, and the part of the archive that was written
    stays. *)
Example unwritable_error_file_run :
  @main linux hashlib_sha1 0 (only_archive_creatable with_pipe) archive_a "ts"
  = Some (Outcome (Uncaught (IOError "/ts_verizip_error.txt")) Partial None).
Proof. compute_done. Qed.

Lemma common_root_starts_every_path_witness :
  "/a/b/y" = "/a" ∨ ∃ rest, "/a/b/y" = "/a" +:+ "/" +:+ rest.
Proof.
  apply (common_root_starts_every_path ["/a/b/x.txt"; "/a/b/y"; "/a/c"] "/" "/a").
  - reflexivity.
  - apply elem_of_cons. right. apply elem_of_cons. by left.
Defined.

Lemma ignore_flags_only_remove_witness :
  ["/d/keep.txt"; "/d/sub/deep.txt"]
  ⊆ ["/d/$RECYCLE.BIN/junk"; "/d/.git/config"; "/d/.profile"; "/d/keep.txt";
     "/d/sub/System Volume Information/s"; "/d/sub/deep.txt"].
Proof.
  apply (@ignore_flags_only_remove linux with_hidden ["/d"] true true
           ["/d/keep.txt"; "/d/sub/deep.txt"]
           ["/d/$RECYCLE.BIN/junk"; "/d/.git/config"; "/d/.profile"; "/d/keep.txt";
            "/d/sub/System Volume Information/s"; "/d/sub/deep.txt"] 4 15);
    compute_done.
Defined.
